(** * Immigration draw data processor: a shallow embedding

    This development embeds [src/immigration_processor.py] (class
    [ImmigrationDataProcessor]) and states its specification as theorems.

    Conventions of the embedding.
    - A round (one element of the ['rounds'] list of the input document) is a
      Python [dict] whose values are JSON strings, as in the data model; it is
      a [gmap string string].  A field that is a number, a list or [null]
      makes the code raise [AttributeError] or [TypeError]; such documents
      are outside the embedding.
    - Text is [string].  The embedding is exact on ASCII text
      ([Py.isascii]): the regular expression classes [\s] and [\d], [int]
      and [title] are those of Python on characters below 128.  Outside
      ASCII Python knows more white space, digits and cased letters; several
      statements below take their texts to be ASCII for this reason.
    - The dictionaries the transforms build keep Python's insertion order and
      are association lists with distinct keys ([Dict.t]).
    - Python integers are [Z].  The mean of the draw-size transform is the
      exact quotient in [Q]; Python rounds it to the nearest float.
    - A [try] body is a computation in a small state-and-exception monad
      whose state survives a raised exception, as the mutations of a Python
      [try] body do.  What the [logger] receives is returned as a list. *)

From Stdlib Require Import ZArith QArith Ascii String Sorting.Sorted.
From stdpp Require Import base list strings gmap pretty sorting.

Local Open Scope string_scope.
Local Open Scope list_scope.
Local Open Scope Z_scope.

(** ** Characters and strings of the Python runtime *)

Module Py.

Definition code (c : ascii) : N := N_of_ascii c.

(** [s.isascii()]: every character is below 128. *)
Definition isascii (s : string) : bool :=
  forallb (λ c, (code c <? 128)%N) (list_ascii_of_string s).

(** [str.isspace] and the regular expression class [\s], on ASCII: the
    characters 9 to 13 and 28 to 32. *)
Definition is_space (c : ascii) : bool :=
  ((9 <=? code c) && (code c <=? 13) || (28 <=? code c) && (code c <=? 32))%N.

(** The white space [int] skips, on ASCII: the characters 9 to 13 and the
    space.  The separators 28 to 31 are white space for [str.isspace] and
    not for [int]. *)
Definition is_int_space (c : ascii) : bool :=
  ((9 <=? code c) && (code c <=? 13) || (code c =? 32))%N.

(** The regular expression class [\d] and the digits of [int], on ASCII. *)
Definition is_digit (c : ascii) : bool :=
  ((48 <=? code c) && (code c <=? 57))%N.

Definition digit_val (c : ascii) : Z := Z.of_N (code c) - 48.

Definition in_range (lo hi c : ascii) : bool :=
  ((code lo <=? code c) && (code c <=? code hi))%N.

Definition is_upper (c : ascii) : bool := in_range "A" "Z" c.
Definition is_lower (c : ascii) : bool := in_range "a" "z" c.
Definition is_cased (c : ascii) : bool := is_upper c || is_lower c.

Definition upper (c : ascii) : ascii :=
  if is_lower c then ascii_of_N (code c - 32) else c.
Definition lower (c : ascii) : ascii :=
  if is_upper c then ascii_of_N (code c + 32) else c.

(** [s.replace(old, '')] for a one-character [old]. *)
Fixpoint remove_char (old : ascii) (s : string) : string :=
  match s with
  | EmptyString => EmptyString
  | String c s' =>
      if Ascii.eqb c old then remove_char old s'
      else String c (remove_char old s')
  end.

(** [s.title()]: a cased character is upper-cased unless the character
    before it is cased, in which case it is lower-cased. *)
Fixpoint title_from (previous_is_cased : bool) (s : string) : string :=
  match s with
  | EmptyString => EmptyString
  | String c s' =>
      String (if previous_is_cased then lower c else upper c)
             (title_from (is_cased c) s')
  end.

Definition title (s : string) : string := title_from false s.

(** [s.split(sep)] for a one-character [sep], and [sep.join(parts)]. *)
Fixpoint split (sep : ascii) (s : string) : list string :=
  match s with
  | EmptyString => [EmptyString]
  | String c s' =>
      if Ascii.eqb c sep then EmptyString :: split sep s'
      else match split sep s' with
           | [] => [String c EmptyString]
           | p :: ps => String c p :: ps
           end
  end.

Fixpoint join (sep : string) (parts : list string) : string :=
  match parts with
  | [] => EmptyString
  | [p] => p
  | p :: ps => p +:+ sep +:+ join sep ps
  end.

(** *** [int(s)]

    White space is skipped on both sides; an optional sign follows; then
    decimal digits, where single underscores may separate digits.  A text
    with more than [MAX_STR_DIGITS] digits is refused, leading zeros
    counted: this is the default of [sys.get_int_max_str_digits()].  [None]
    stands for [ValueError]. *)

Definition MAX_STR_DIGITS : Z := 4300.

Fixpoint lstrip (l : list ascii) : list ascii :=
  match l with
  | c :: l' => if is_int_space c then lstrip l' else l
  | [] => []
  end.

Definition strip (l : list ascii) : list ascii :=
  rev (lstrip (rev (lstrip l))).

Fixpoint int_digits (acc : Z) (after_digit : bool) (l : list ascii) : option Z :=
  match l with
  | [] => if after_digit then Some acc else None
  | c :: l' =>
      if is_digit c then int_digits (10 * acc + digit_val c) true l'
      else if Ascii.eqb c "_" && after_digit then int_digits acc false l'
      else None
  end.

(** The digits after the sign: their number is checked once the run of
    digits and underscores is known to be well formed. *)
Definition int_unsigned (l : list ascii) : option Z :=
  match int_digits 0 false l with
  | Some n =>
      if Z.of_nat (length (List.filter is_digit l)) <=? MAX_STR_DIGITS
      then Some n else None
  | None => None
  end.

Definition int (s : string) : option Z :=
  match strip (list_ascii_of_string s) with
  | "+"%char :: l => int_unsigned l
  | "-"%char :: l => Z.opp <$> int_unsigned l
  | l => int_unsigned l
  end.

(** *** [datetime.strptime(s, '%Y-%m-%d')]

    The format compiles to the regular expression
    [(\d\d\d\d)-(1[0-2]|0[1-9]|[1-9])-(3[0-1]|[1-2]\d|0[1-9]|[1-9]| [1-9])],
    matched at the start of [s]; the whole of [s] must be consumed, and the
    three fields must name a day of the proleptic Gregorian calendar with
    a year of at least 1.  [None] stands for [ValueError].  No alternative
    of the month can succeed after an earlier one has matched, so the
    first alternative that matches is the only one to try. *)

Record datetime : Type := mk_datetime { year : Z; month : Z; day : Z }.

Definition nonzero_digit (c : ascii) : bool := in_range "1" "9" c.

Definition re_month (l : list ascii) : option (Z * list ascii) :=
  match l with
  | "1"%char :: c :: r =>
      if in_range "0" "2" c then Some (10 + digit_val c, r)
      else Some (1, c :: r)
  | "0"%char :: c :: r =>
      if nonzero_digit c then Some (digit_val c, r) else None
  | c :: r => if nonzero_digit c then Some (digit_val c, r) else None
  | [] => None
  end.

Definition re_day (l : list ascii) : option (Z * list ascii) :=
  let one_digit :=
    match l with
    | c :: r =>
        if nonzero_digit c then Some (digit_val c, r)
        else match l with
             | " "%char :: d :: r' =>
                 if nonzero_digit d then Some (digit_val d, r') else None
             | _ => None
             end
    | [] => None
    end in
  match l with
  | "3"%char :: c :: r =>
      if in_range "0" "1" c then Some (30 + digit_val c, r) else one_digit
  | c :: d :: r =>
      if in_range "1" "2" c && is_digit d
      then Some (10 * digit_val c + digit_val d, r)
      else if Ascii.eqb c "0" && nonzero_digit d then Some (digit_val d, r)
      else one_digit
  | _ => one_digit
  end.

Definition is_leap (y : Z) : bool :=
  (y mod 4 =? 0) && (negb (y mod 100 =? 0) || (y mod 400 =? 0)).

Definition days_in_month (y m : Z) : Z :=
  if m =? 2 then (if is_leap y then 29 else 28)
  else if (m =? 4) || (m =? 6) || (m =? 9) || (m =? 11) then 30
  else 31.

Definition strptime (s : string) : option datetime :=
  match list_ascii_of_string s with
  | y1 :: y2 :: y3 :: y4 :: "-"%char :: l =>
      if is_digit y1 && is_digit y2 && is_digit y3 && is_digit y4 then
        let y := 1000 * digit_val y1 + 100 * digit_val y2
                 + 10 * digit_val y3 + digit_val y4 in
        match re_month l with
        | Some (m, "-"%char :: l') =>
            match re_day l' with
            | Some (d, []) =>
                if (1 <=? y) && (d <=? days_in_month y m)
                then Some (mk_datetime y m d) else None
            | _ => None
            end
        | _ => None
        end
      else None
  | _ => None
  end.

(** [a < b] on [datetime] values: year, then month, then day. *)
Definition datetime_ltb (a b : datetime) : bool :=
  (year a <? year b)
  || (year a =? year b)
     && ((month a <? month b)
         || (month a =? month b) && (day a <? day b)).

(** *** [sorted(xs, key=...)]

    Python's sort is stable and compares keys with [<] only.  Insertion
    from the right gives the same list: an element goes before the first
    later element that is not smaller than it. *)

Section Sorted.
Context {A K : Type} (ltb : K → K → bool) (key : A → K).

Fixpoint insert_stable (a : A) (l : list A) : list A :=
  match l with
  | [] => [a]
  | b :: l' =>
      if ltb (key b) (key a) then b :: insert_stable a l' else a :: l
  end.

Definition sorted (l : list A) : list A := foldr insert_stable [] l.

(** [a] may stand before [b] in the result: [b] is not smaller. *)
Definition not_after (a b : A) : Prop := ltb (key b) (key a) = false.
End Sorted.

(** [range(start, stop, step)]: [ValueError] for a zero step, else the
    values [start + j * step] for [j] below the length Python computes. *)
Definition range_len (start stop step : Z) : Z :=
  if 0 <? step then
    (if start <? stop then (stop - start - 1) / step + 1 else 0)
  else
    (if stop <? start then (start - stop - 1) / (- step) + 1 else 0).

Definition range (start stop step : Z) : option (list Z) :=
  if step =? 0 then None
  else Some ((λ j : nat, start + Z.of_nat j * step)
               <$> seq 0 (Z.to_nat (range_len start stop step))).

(** [l[i:j]] for [0 <= i <= j]. *)
Definition slice {A} (l : list A) (i j : Z) : list A :=
  take (Z.to_nat (j - i)) (drop (Z.to_nat i) l).

End Py.

(** ** Exceptions, results and the log *)

Inductive exn : Type :=
  | KeyError (key : string)
  | ValueError
  | IndexError
  | OverflowError
  | FileNotFoundError.

Inductive result (A : Type) : Type :=
  | Ok (a : A)
  | Raise (e : exn).
Arguments Ok {A} a.
Arguments Raise {A} e.

(** What [self.logger.warning] receives: the exception a round's [try]
    caught, or the key of a series whose dates did not parse. *)
Inductive warning : Type :=
  | RoundWarning (e : exn)
  | DateWarning (key : string).

Definition rbind {A B} (m : result A) (k : A → result B) : result B :=
  match m with
  | Ok a => k a
  | Raise e => Raise e
  end.

Fixpoint rmapM {A B} (f : A → result B) (l : list A) : result (list B) :=
  match l with
  | [] => Ok []
  | a :: l' => rbind (f a) (λ b, rbind (rmapM f l') (λ bs, Ok (b :: bs)))
  end.

(** ** The body of a [try]: state that survives an exception *)

Module Try.
Section Monad.
Context {St : Type}.

Definition t (A : Type) : Type := St → St * result A.

Definition ret {A} (a : A) : t A := λ s, (s, Ok a).
Definition raise {A} (e : exn) : t A := λ s, (s, Raise e).
Definition bind {A B} (m : t A) (k : A → t B) : t B :=
  λ s, match m s with
       | (s', Ok a) => k a s'
       | (s', Raise e) => (s', Raise e)
       end.
Definition modify (f : St → St) : t unit := λ s, (f s, Ok tt).
Definition lift {A} (r : result A) : t A := λ s, (s, r).

(** [for a in l: body(a)]. *)
Fixpoint for_ {A} (l : list A) (body : A → t unit) : t unit :=
  match l with
  | [] => ret tt
  | a :: l' => bind (body a) (λ _, for_ l' body)
  end.

(** [try: body / except ... as e: logger.warning(e); continue]: the
    state the body reached, and what was logged.  The bodies of this module
    raise [KeyError] for a missing field, [ValueError] from [int] and, in
    the pool transform, [IndexError] from the list of ranges; each [except]
    clause names all that its body can raise, so every exception of a body
    is caught here. *)
Definition except (body : t unit) (s : St) : St * list warning :=
  match body s with
  | (s', Ok _) => (s', [])
  | (s', Raise e) => (s', [RoundWarning e])
  end.

(** [for round_data in rounds: try: ... except ...: ...; continue]:
    [round_step] is one iteration, on the state and the log so far. *)
Definition round_step {R} (body : R → t unit) (st : St * list warning)
    (r : R) : St * list warning :=
  let '(s', w) := except (body r) st.1 in (s', st.2 ++ w).

Definition for_rounds {R} (body : R → t unit) (rounds : list R)
    (s : St) : St * list warning :=
  fold_left (round_step body) rounds (s, []).
End Monad.
Arguments t : clear implicits.
End Try.

Notation "'let*' x ':=' m 'in' k" := (Try.bind m (λ x, k))
  (at level 10, x name, m at level 100, k at level 200, only parsing).

(** ** Insertion-ordered dictionaries *)

Module Dict.
Section Ops.
Context {V : Type}.

Definition t : Type := list (string * V).

Definition keys (d : t) : list string := d.*1.

(** [d.get(k)]. *)
Fixpoint get (k : string) (d : t) : option V :=
  match d with
  | [] => None
  | (k', v) :: d' => if String.eqb k' k then Some v else get k d'
  end.

(** [k in d]. *)
Definition contains (k : string) (d : t) : bool :=
  match get k d with Some _ => true | None => false end.

(** A change of the value stored at [k], in place. *)
Fixpoint alter (f : V → V) (k : string) (d : t) : t :=
  match d with
  | [] => []
  | (k', v) :: d' =>
      if String.eqb k' k then (k', f v) :: d' else (k', v) :: alter f k d'
  end.

(** [d[k] = v]: a new key goes last, an old key keeps its place. *)
Definition set (k : string) (v : V) (d : t) : t :=
  if contains k d then alter (λ _, v) k d else d ++ [(k, v)].
End Ops.
Arguments t : clear implicits.
End Dict.

(** ** Data model *)

(** One element of ['rounds']. *)
Abbreviation Round := (gmap string string).

Module Series.
Record t (V : Type) : Type := mk {
  x : list string;
  y : list V;
  type : string;
  mode : string;
  name : string
}.
Arguments mk {V}.
Arguments x {V}.
Arguments y {V}.
Arguments type {V}.
Arguments mode {V}.
Arguments name {V}.

(** [{'x': [], 'y': [], 'type': 'scatter', 'mode': 'lines+markers',
     'name': name}]. *)
Definition empty {V} (name : string) : t V :=
  mk [] [] "scatter" "lines+markers" name.

(** [s['x'].append(d)], [s['y'].append(v)]. *)
Definition append_x {V} (d : string) (s : t V) : t V :=
  mk (x s ++ [d]) (y s) (type s) (mode s) (name s).
Definition append_y {V} (v : V) (s : t V) : t V :=
  mk (x s) (y s ++ [v]) (type s) (mode s) (name s).

(** [s['x'].extend(other['x']); s['y'].extend(other['y'])]. *)
Definition extend {V} (other s : t V) : t V :=
  mk (x s ++ x other) (y s ++ y other) (type s) (mode s) (name s).
End Series.

Abbreviation Collection := (Dict.t (Series.t Z)).

(** ** The processor *)

Definition BATCH_SIZE : Z := 8.

Definition CRS_POOL_RANGES : list string :=
  [ "601-1200"; "501-600"; "451-500"; "491-500"; "481-490"; "471-480";
    "461-470"; "451-460"; "401-450"; "441-450"; "431-440"; "421-430";
    "411-420"; "401-410"; "351-400"; "301-350"; "0-300" ].

Record ImmigrationDataProcessor : Type := mk_processor {
  batch_size : Z
}.

(** [__init__]: [batch_size or self.BATCH_SIZE] replaces [None] and [0] by
    the default; a missing input file raises. *)
Definition __init__ (input_file_exists : bool) (batch_size : option Z)
    : result ImmigrationDataProcessor :=
  let batch_size :=
    match batch_size with
    | None => BATCH_SIZE
    | Some n => if n =? 0 then BATCH_SIZE else n
    end in
  if input_file_exists then Ok (mk_processor batch_size)
  else Raise FileNotFoundError.

(** [re.search] with the pattern of [_extract_draw_name]: a greedy run of
    characters other than a newline, then a lookahead for a white-space
    character and an opening parenthesis.  [greedy] is the match that starts
    at the head of its argument: the run takes as many characters as it can
    and gives them back one at a time until the lookahead holds; [re_search]
    tries the start positions from left to right. *)
Definition lookahead (s : string) : bool :=
  match s with
  | String c (String "("%char _) => Py.is_space c
  | _ => false
  end.

Fixpoint greedy (s : string) : option string :=
  match s with
  | EmptyString => None
  | String c s' =>
      match (if Ascii.eqb c "010" then None else greedy s') with
      | Some m => Some (String c m)
      | None => if lookahead s then Some EmptyString else None
      end
  end.

Fixpoint re_search (s : string) : option string :=
  match greedy s with
  | Some m => Some m
  | None =>
      match s with
      | EmptyString => None
      | String _ s' => re_search s'
      end
  end.

Definition _extract_draw_name (draw_name : string) : string :=
  match re_search draw_name with
  | Some m => m
  | None => draw_name
  end.

Definition _parse_numeric_value (value : string) : result Z :=
  match Py.int (Py.remove_char "," value) with
  | Some n => Ok n
  | None => Raise ValueError
  end.

(** [round_data[k]]. *)
Definition getitem {St} (round_data : Round) (k : string) : Try.t St string :=
  match round_data !! k with
  | Some v => Try.ret v
  | None => Try.raise (KeyError k)
  end.

(** [l[i]] for [0 <= i]. *)
Definition getindex {A} (l : list A) (i : nat) : result A :=
  match l !! i with
  | Some a => Ok a
  | None => Raise IndexError
  end.

(** One iteration of the loop of [_sort_data_by_date].  [sorted] calls the
    key function on every index before it compares anything, so a date that
    does not parse leaves [data_item] as it was. *)
Definition sort_series (key : string) (data_item : Series.t Z)
    : result (Series.t Z * list warning) :=
  match mapM Py.strptime (Series.x data_item) with
  | None => Ok (data_item, [DateWarning key])
  | Some dates =>
      let sorted_indices :=
        (Py.sorted Py.datetime_ltb fst
           (zip dates (seq 0 (length (Series.x data_item))))).*2 in
      rbind (rmapM (getindex (Series.x data_item)) sorted_indices) (λ x',
      rbind (rmapM (getindex (Series.y data_item)) sorted_indices) (λ y',
      Ok (Series.mk x' y' (Series.type data_item) (Series.mode data_item)
            (Series.name data_item), [])))
  end.

Fixpoint _sort_data_by_date (data : Collection)
    : result (Collection * list warning) :=
  match data with
  | [] => Ok ([], [])
  | (key, data_item) :: data' =>
      rbind (sort_series key data_item) (λ '(data_item', w),
      rbind (_sort_data_by_date data') (λ '(data'', w'),
      Ok ((key, data_item') :: data'', w ++ w')))
  end.

(** [{key: data[key] for key in sorted(data.keys())}]. *)
Definition sort_by_key {V} (data : Dict.t V) : Dict.t V :=
  omap (λ key, pair key <$> Dict.get key data)
       (Py.sorted String.ltb id (Dict.keys data)).

(** The merge of one batch into the accumulated data:
    [for key, value in batch_data.items()], with [merge_item] the body.  The
    series stored for a new key is the object of the batch; [batch_data] is
    rebound for the next batch, so nothing else changes it afterwards and a
    value stands for it. *)
Definition merge_item (accumulated_data : Collection)
    (item : string * Series.t Z) : Collection :=
  let '(key, value) := item in
  if Dict.contains key accumulated_data
  then Dict.alter (Series.extend value) key accumulated_data
  else Dict.set key value accumulated_data.

Definition merge_batch (accumulated_data batch_data : Collection) : Collection :=
  fold_left merge_item batch_data accumulated_data.

(** The batch loop the score and pool transforms share:
    [for i in range(0, len(rounds), self.batch_size)], a fresh [batch_data]
    per batch, the rounds of the batch run through [body], then the merge.
    [batch_step] is one iteration, on the accumulated data and the log so
    far.  [range] raises [ValueError] for a step of zero. *)
Definition batch_step (body : Round → Try.t Collection unit)
    (batch_size : Z) (rounds : list Round)
    (st : Collection * list warning) (i : Z) : Collection * list warning :=
  match Py.slice rounds i (i + batch_size) with
  | [] => st
  | batch =>
      let '(batch_data, w) := Try.for_rounds body batch [] in
      (merge_batch st.1 batch_data, st.2 ++ w)
  end.

Definition process_in_batches (body : Round → Try.t Collection unit)
    (batch_size : Z) (rounds : list Round)
    : result (Collection * list warning) :=
  match Py.range 0 (Z.of_nat (length rounds)) batch_size with
  | None => Raise ValueError
  | Some starts =>
      Ok (fold_left (batch_step body batch_size rounds) starts ([], []))
  end.

(** [if k not in batch_data: batch_data[k] = {...}]. *)
Definition ensure_series (k display_name : string) (batch_data : Collection)
    : Collection :=
  if Dict.contains k batch_data then batch_data
  else Dict.set k (Series.empty display_name) batch_data.

(** The [try] body of [_process_crs_trends]. *)
Definition crs_round (round_data : Round) : Try.t Collection unit :=
  let* draw_name := getitem round_data "drawName" in
  let* draw_date := getitem round_data "drawDate" in
  let* draw_crs := getitem round_data "drawCRS" in
  let extracted_draw_name := _extract_draw_name draw_name in
  let* _ := Try.modify (ensure_series extracted_draw_name (Py.title extracted_draw_name)) in
  let* _ := Try.modify (Dict.alter (Series.append_x draw_date) extracted_draw_name) in
  let* crs := Try.lift (_parse_numeric_value draw_crs) in
  Try.modify (Dict.alter (Series.append_y crs) extracted_draw_name).

(** What both transforms do after the batch loop: sort every series by
    date, then order the collection by key. *)
Definition finish (acc : result (Collection * list warning))
    : result (Collection * list warning) :=
  rbind acc (λ '(accumulated_data, w),
  rbind (_sort_data_by_date accumulated_data) (λ '(data, w'),
  Ok (sort_by_key data, w ++ w'))).

Definition _process_crs_trends (self : ImmigrationDataProcessor)
    (rounds : list Round) : result (Collection * list warning) :=
  finish (process_in_batches crs_round (batch_size self) rounds).

(** The body of [for i in range(1, 18)] in [_process_pool_trends]. *)
Definition pool_field (round_data : Round) (draw_date : string) (i : nat)
    : Try.t Collection unit :=
  let pool_key := "dd" +:+ pretty i in
  match round_data !! pool_key with
  | None => Try.ret tt
  | Some value =>
      let draw_pool := Py.remove_char "," value in
      if String.eqb draw_pool "" || String.eqb draw_pool "0" then Try.ret tt
      else
        let* label := Try.lift (getindex CRS_POOL_RANGES (i - 1)) in
        let pool_name := "CRS Range: " +:+ label in
        let* _ := Try.modify (ensure_series pool_name (Py.title pool_name)) in
        let* _ := Try.modify (Dict.alter (Series.append_x draw_date) pool_name) in
        let* pool := Try.lift (match Py.int draw_pool with
                               | Some n => Ok n
                               | None => Raise ValueError
                               end) in
        Try.modify (Dict.alter (Series.append_y pool) pool_name)
  end.

(** [sum(1 for i in range(1, 18) if round_data.get(f'dd{i}', '0') == '0')]. *)
Definition zero_count (round_data : Round) : nat :=
  length (filter (λ i : nat,
                    default "0" (round_data !! ("dd" +:+ pretty i)) = "0")
                 (seq 1 17)).

(** The [try] body of [_process_pool_trends]. *)
Definition pool_round (round_data : Round) : Try.t Collection unit :=
  let* draw_date := getitem round_data "drawDate" in
  if Nat.eqb (zero_count round_data) 17 then Try.ret tt
  else Try.for_ (seq 1 17) (pool_field round_data draw_date).

Definition _process_pool_trends (self : ImmigrationDataProcessor)
    (rounds : list Round) : result (Collection * list warning) :=
  finish (process_in_batches pool_round (batch_size self) rounds).

(** [a / b] on integers, for [b > 0]: the float nearest to the quotient, kept
    here as the exact quotient, and [OverflowError] when that float would be
    beyond the largest finite one. *)
Definition true_div (a : Z) (b : positive) : result Q :=
  if (2 ^ 1024 - 2 ^ 970) * Z.pos b <=? Z.abs a then Raise OverflowError
  else Ok (a # b).

(** [sum(candidates) / len(candidates) if candidates else 0]. *)
Definition mean (candidates : list Z) : result Q :=
  match candidates with
  | [] => Ok 0%Q
  | _ => true_div (foldr Z.add 0 candidates) (Pos.of_nat (length candidates))
  end.

(** [value > 0].  A quotient of a positive sum by the length of a list that
    fits in memory does not round to zero. *)
Definition positive_value (value : Q) : bool := 0 <? Qnum value.

(** The state of the loop of [_process_draw_size_trends]:
    [draw_invitations_per_month] and [candidates_per_month]. *)
Definition MonthState : Type := Dict.t Z * Dict.t (list Z).

(** The [try] body of [_process_draw_size_trends]. *)
Definition draw_size_round (round_data : Round) : Try.t MonthState unit :=
  let* draw_date := getitem round_data "drawDate" in
  let year_month := Py.join "-" (take 2 (Py.split "-" draw_date)) in
  let* draw_size_text := getitem round_data "drawSize" in
  let* draw_size := Try.lift (_parse_numeric_value draw_size_text) in
  let* _ := Try.modify (λ st : MonthState,
              (Dict.set year_month
                 (default 0 (Dict.get year_month st.1) + draw_size) st.1,
               st.2)) in
  let* total_text := getitem round_data "dd18" in
  let* total_candidates := Try.lift (_parse_numeric_value total_text) in
  let* _ := Try.modify (λ st : MonthState,
              (st.1,
               if Dict.contains year_month st.2 then st.2
               else Dict.set year_month [] st.2)) in
  Try.modify (λ st : MonthState,
    (st.1, Dict.alter (λ l, l ++ [total_candidates]) year_month st.2)).

(** [d[k]] on a built dictionary. *)
Definition dict_item {V} (d : Dict.t V) (k : string) : result V :=
  match Dict.get k d with
  | Some v => Ok v
  | None => Raise (KeyError k)
  end.

Definition _process_draw_size_trends (rounds : list Round)
    : result ((Series.t Z * Series.t Q) * list warning) :=
  let '((draw_invitations_per_month, candidates_per_month), w) :=
    Try.for_rounds draw_size_round rounds ([], []) in
  rbind (rmapM (λ '(month, candidates),
                  rbind (mean candidates) (λ value, Ok (month, value)))
               candidates_per_month) (λ mean_candidates_per_month,
  let valid_months : Dict.t Q :=
    filter (λ '(month, value), positive_value value = true)
           mean_candidates_per_month in
  let filtered_invitations : Dict.t Z :=
    omap (λ month, pair month <$> Dict.get month draw_invitations_per_month)
         (Dict.keys valid_months) in
  let sorted_months := Py.sorted String.ltb id (Dict.keys valid_months) in
  rbind (rmapM (dict_item filtered_invitations) sorted_months) (λ invitations,
  rbind (rmapM (dict_item valid_months) sorted_months) (λ means,
  Ok ((Series.mk sorted_months invitations "scatter" "lines+markers"
         "Draw Invitations",
       Series.mk sorted_months means "scatter" "lines+markers"
         "Total(Mean) Candidates"),
      w)))).

(** [process_all_trends], from the loaded rounds on.  [_save_json_data] is
    taken to succeed; the outcome records the results saved before the
    transform that raised, if one did. *)
Record Saved : Type := mk_saved {
  crs_trend : option Collection;
  pool_trend : option Collection;
  draw_size : option (Series.t Z * Series.t Q)
}.

Definition process_all_trends (self : ImmigrationDataProcessor)
    (rounds : list Round) : Saved * option exn :=
  match _process_crs_trends self rounds with
  | Raise e => (mk_saved None None None, Some e)
  | Ok (crs_trends, _) =>
      match _process_pool_trends self rounds with
      | Raise e => (mk_saved (Some crs_trends) None None, Some e)
      | Ok (pool_trends, _) =>
          match _process_draw_size_trends rounds with
          | Raise e =>
              (mk_saved (Some crs_trends) (Some pool_trends) None, Some e)
          | Ok (draw_size_trends, _) =>
              (mk_saved (Some crs_trends) (Some pool_trends)
                 (Some draw_size_trends), None)
          end
      end
  end.

(** ** Sample inputs *)

Definition general_rounds : list Round :=
  [ {[ "drawDate" := "2024-02-01"; "drawName" := "General (X)";
       "drawCRS" := "500" ]};
    {[ "drawDate" := "2024-01-01"; "drawName" := "General (X)";
       "drawCRS" := "600" ]} ].

(** A well-formed round followed by one whose cutoff score is no number. *)
Definition malformed_score_rounds : list Round :=
  [ {[ "drawDate" := "2024-01-01"; "drawName" := "General";
       "drawCRS" := "500"; "drawSize" := "1,000"; "dd18" := "200,000" ]};
    {[ "drawDate" := "2024-02-01"; "drawName" := "General";
       "drawCRS" := "n/a"; "drawSize" := "1,000"; "dd18" := "200,000" ]} ].

(** Two draws in January, one in February with no candidate in the pool,
    and one in March whose candidate count is missing. *)
Definition monthly_rounds : list Round :=
  [ {[ "drawDate" := "2024-01-10"; "drawSize" := "1,000"; "dd18" := "200" ]};
    {[ "drawDate" := "2024-01-24"; "drawSize" := "500"; "dd18" := "300" ]};
    {[ "drawDate" := "2024-02-07"; "drawSize" := "700"; "dd18" := "0" ]};
    {[ "drawDate" := "2024-03-06"; "drawSize" := "10" ]} ].

Definition monthly_invitations : Dict.t Z :=
  [("2024-01", 1500); ("2024-02", 700); ("2024-03", 10)].

Definition monthly_candidates : Dict.t (list Z) :=
  [("2024-01", [200; 300]); ("2024-02", [0])].

Definition monthly_output : Series.t Z * Series.t Q :=
  (Series.mk ["2024-01"] [1500] "scatter" "lines+markers" "Draw Invitations",
   Series.mk ["2024-01"] [500 # 2] "scatter" "lines+markers"
     "Total(Mean) Candidates").

(** Two rounds whose dates parse although their month is not zero-padded. *)
Definition unpadded_rounds : list Round :=
  [ {[ "drawDate" := "2024-9-15"; "drawName" := "General";
       "drawCRS" := "500"; "drawSize" := "1,000"; "dd18" := "200" ]};
    {[ "drawDate" := "2024-10-15"; "drawName" := "General";
       "drawCRS" := "510"; "drawSize" := "10"; "dd18" := "300" ]} ].



(** A round with two pool counts, one of them with a separator, and one
    pool field that is zero. *)
Definition sparse_pool_round : Round :=
  {[ "drawDate" := "2024-01-01"; "dd1" := "1,200"; "dd2" := "0";
     "dd4" := "7" ]}.

(** ** Vocabulary of the specification *)

(** Ascending order of keys, as [sorted] on strings leaves them. *)
Definition ascending (l : list string) : Prop :=
  Sorted (λ a b, String.leb a b = true) l.

(** Dates in calendar order: no date is followed by an earlier one. *)
Definition non_decreasing (dates : list Py.datetime) : Prop :=
  Sorted (λ a b, Py.datetime_ltb b a = false) dates.

(** A date of the series did not parse when it was sorted. *)
Definition date_parse_failure (s : Series.t Z) : Prop :=
  mapM Py.strptime (Series.x s) = None.

(** The series is consistent and in calendar order. *)
Definition chronological (s : Series.t Z) : Prop :=
  length (Series.x s) = length (Series.y s)
  ∧ ∃ dates, mapM Py.strptime (Series.x s) = Some dates
             ∧ non_decreasing dates.

(** A change of a series that can be made before or after an [extend]. *)
Definition extends_through (f : Series.t Z → Series.t Z) : Prop :=
  ∀ v s, Series.extend (f v) s = f (Series.extend v s).

(** A computation on the batch data that can as well run on the accumulated
    data with the batch merged in: it keeps the keys distinct, and running it
    after the merge gives the merge of what it gives before. *)
Definition merges_through {A} (m : Try.t Collection A) : Prop :=
  ∀ acc b, NoDup (Dict.keys b) →
    NoDup (Dict.keys (m b).1)
    ∧ m (merge_batch acc b) = (merge_batch acc (m b).1, (m b).2).

(** A month that survives the filter of the draw-size transform: candidate
    counts were collected for it and their mean is positive. *)
Definition surviving (candidates_per_month : Dict.t (list Z)) (month : string)
    : Prop :=
  ∃ candidates value,
    Dict.get month candidates_per_month = Some candidates
    ∧ candidates ≠ []
    ∧ mean candidates = Ok value
    ∧ (0 < value)%Q.

(** A month key read as a calendar date, the first day of the month, and
    month keys in calendar order. *)
Definition month_start (month : string) : option Py.datetime :=
  Py.strptime (month +:+ "-1").

Definition calendar_ordered_months (months : list string) : Prop :=
  ∃ dates, mapM month_start months = Some dates ∧ non_decreasing dates.

(** What a pool field of a round is to the pool transform: missing, empty
    or zero (skipped), a number, or text that is no number. *)
Inductive field_kind : Type :=
  | Skipped
  | Numeric (n : Z)
  | Malformed.

Definition classify (round_data : Round) (i : nat) : field_kind :=
  match round_data !! ("dd" +:+ pretty i) with
  | None => Skipped
  | Some value =>
      let draw_pool := Py.remove_char "," value in
      if String.eqb draw_pool "" || String.eqb draw_pool "0" then Skipped
      else match Py.int draw_pool with
           | Some n => Numeric n
           | None => Malformed
           end
  end.

(** The key of pool field [i], for [i] from 1 to 17. *)
Definition pool_name (i : nat) : string :=
  "CRS Range: " +:+ default "" (CRS_POOL_RANGES !! (i - 1)%nat).

(** One point appended to the series of a key, which is created if new. *)
Definition append_point (key date : string) (n : Z) (data : Collection)
    : Collection :=
  Dict.alter (Series.append_y n) key
    (Dict.alter (Series.append_x date) key
       (ensure_series key (Py.title key) data)).

(** What pool field [i] of a round contributes on its own. *)
Definition contribute (round_data : Round) (date : string)
    (data : Collection) (i : nat) : Collection :=
  match classify round_data i with
  | Numeric n => append_point (pool_name i) date n data
  | _ => data
  end.

(** Every value of the round is ASCII text. *)
Definition ascii_round (round_data : Round) : Prop :=
  map_Forall (λ _ value, Py.isascii value = true) round_data.

(** A white-space character followed by an opening parenthesis occurs
    somewhere in the text. *)
Fixpoint has_qualifier (s : string) : bool :=
  lookahead s
  || match s with
     | EmptyString => false
     | String _ s' => has_qualifier s'
     end.

(** The text has no newline. *)
Fixpoint one_line (s : string) : bool :=
  match s with
  | EmptyString => true
  | String c s' => negb (Ascii.eqb c "010") && one_line s'
  end.

(** The number a run of decimal digits writes. *)
Definition decimal (digits : list ascii) : Z :=
  fold_left (λ acc c, 10 * acc + Py.digit_val c) digits 0.

(** What two dictionaries hold for a key once the second is merged into the
    first: a series present in both is extended, a series present in one is
    kept. *)
Definition merged_value (old new : option (Series.t Z)) : option (Series.t Z) :=
  match old, new with
  | Some s, Some v => Some (Series.extend v s)
  | Some s, None => Some s
  | None, new => new
  end.

(** The point a round gives to the score trend: the key, the date and the
    score, when the three fields are there and the score is a number. *)
Definition score_point (round_data : Round) : option (string * (string * Z)) :=
  match round_data !! "drawName", round_data !! "drawDate",
        round_data !! "drawCRS" with
  | Some draw_name, Some draw_date, Some draw_crs =>
      match _parse_numeric_value draw_crs with
      | Ok crs => Some (_extract_draw_name draw_name, (draw_date, crs))
      | Raise _ => None
      end
  | _, _, _ => None
  end.

(** The points with a given key among a list of keyed points, in order. *)
Definition points_with {P} (key : string) (points : list (string * P))
    : list P :=
  omap (λ kp, if String.eqb kp.1 key then Some kp.2 else None) points.

(** The dates and scores of the rounds of a key, in the order of the
    rounds. *)
Definition points_of (key : string) (rounds : list Round)
    : list (string * Z) :=
  points_with key (omap score_point rounds).

(** All the points appended in turn. *)
Definition append_points (points : list (string * (string * Z)))
    (data : Collection) : Collection :=
  fold_left (λ data kp, append_point kp.1 kp.2.1 kp.2.2 data) points data.

(** The points a round gives to the pool trend: for each pool field that
    holds a number, the key of the field, the date of the round and the
    number, in the order of the fields. *)
Definition pool_points (round_data : Round)
    : list (string * (string * Z)) :=
  match round_data !! "drawDate" with
  | Some date =>
      omap (λ i, match classify round_data i with
                 | Numeric n => Some (pool_name i, (date, n))
                 | _ => None
                 end)
           (seq 1 17)
  | None => []
  end.



(** The month of a date: its first two components between hyphens. *)
Definition year_month (draw_date : string) : string :=
  Py.join "-" (take 2 (Py.split "-" draw_date)).

(** What a round adds to the invitations of its month: its draw size, when
    it has a date and a draw size that is a number. *)
Definition size_entry (round_data : Round) : option (string * Z) :=
  match round_data !! "drawDate", round_data !! "drawSize" with
  | Some draw_date, Some text =>
      match _parse_numeric_value text with
      | Ok draw_size => Some (year_month draw_date, draw_size)
      | Raise _ => None
      end
  | _, _ => None
  end.

(** What a round adds to the candidates of its month: its candidate count,
    when its draw size counted and the count is there and is a number. *)
Definition candidate_entry (round_data : Round) : option (string * Z) :=
  match size_entry round_data, round_data !! "dd18" with
  | Some (month, _), Some text =>
      match _parse_numeric_value text with
      | Ok total_candidates => Some (month, total_candidates)
      | Raise _ => None
      end
  | _, _ => None
  end.



(** * Properties *)

(** ** The runtime model on sample values *)

Example int_ex1 : Py.int "1234" = Some 1234. Proof. reflexivity. Qed.
Example int_ex2 : Py.int " -1_000 " = Some (-1000). Proof. reflexivity. Qed.
Example int_ex3 : Py.int "12a" = None. Proof. reflexivity. Qed.
Example int_ex4 : Py.int "" = None. Proof. reflexivity. Qed.
Example int_ex5 : Py.int "1__0" = None. Proof. reflexivity. Qed.

(** The unit separator is white space for [\s] and not for [int]. *)
Example int_ex6 :
  Py.is_space "031" = true ∧ Py.int (String "031" "7") = None
  ∧ Py.int (String "009" "7") = Some 7.
Proof. split_and!; reflexivity. Qed.

(** [int] takes 4300 digits and refuses 4301. *)
Example int_ex7 :
  is_Some (Py.int (string_of_list_ascii (replicate 4300 "1"%char)))
  ∧ Py.int (string_of_list_ascii (replicate 4301 "1"%char)) = None.
Proof.
  split.
  - apply (bool_decide_unpack _). vm_compute. reflexivity.
  - vm_compute. reflexivity.
Qed.
Example strptime_ex1 :
  Py.strptime "2024-02-29" = Some (Py.mk_datetime 2024 2 29).
Proof. reflexivity. Qed.
Example strptime_ex2 : Py.strptime "2023-02-29" = None.
Proof. reflexivity. Qed.
Example strptime_ex3 :
  Py.strptime "2024-9-5" = Some (Py.mk_datetime 2024 9 5).
Proof. reflexivity. Qed.
Example strptime_ex4 : Py.strptime "2024-10-311" = None.
Proof. reflexivity. Qed.
Example strptime_ex5 : Py.strptime "2024/10/31" = None.
Proof. reflexivity. Qed.
Example title_ex : Py.title "CRS Range: 601-1200" = "Crs Range: 601-1200".
Proof. reflexivity. Qed.
Example split_ex : Py.split "-" "2024-02-01" = ["2024"; "02"; "01"].
Proof. reflexivity. Qed.
Example range_ex : Py.range 0 10 4 = Some [0; 4; 8].
Proof. reflexivity. Qed.
Example range_neg : Py.range 0 10 (-3) = Some [].
Proof. reflexivity. Qed.
Example extract_ex1 :
  _extract_draw_name "Provincial Nominee Program (PNP)"
  = "Provincial Nominee Program".
Proof. reflexivity. Qed.
Example extract_ex2 : _extract_draw_name "A (b) (c)" = "A (b)".
Proof. reflexivity. Qed.
Example extract_ex3 : _extract_draw_name "No qualifier" = "No qualifier".
Proof. reflexivity. Qed.
Example parse_ex : _parse_numeric_value "1,234" = Ok 1234.
Proof. reflexivity. Qed.

(** ** Results *)

Lemma rbind_Ok {A B} (m : result A) (k : A → result B) (b : B) :
  rbind m k = Ok b → ∃ a, m = Ok a ∧ k a = Ok b.
Proof. destruct m as [a|e]; simpl; [eauto | discriminate]. Qed.

Lemma rmapM_Ok_length {A B} (f : A → result B) (l : list A) (bs : list B) :
  rmapM f l = Ok bs → length bs = length l.
Proof.
  revert bs; induction l as [|a l IH]; intros bs; simpl.
  - by intros [= <-].
  - intros H. apply rbind_Ok in H as (b & _ & H).
    apply rbind_Ok in H as (bs' & Hbs' & [= <-]).
    simpl. f_equal. by apply IH.
Qed.

Lemma rmapM_Ok_lookup {A B} (f : A → result B) (l : list A) (bs : list B) :
  rmapM f l = Ok bs → ∀ i a, l !! i = Some a → ∃ b, bs !! i = Some b ∧ f a = Ok b.
Proof.
  revert bs; induction l as [|a l IH]; intros bs; simpl.
  - intros _ i a H. by rewrite lookup_nil in H.
  - intros H. apply rbind_Ok in H as (b & Hb & H).
    apply rbind_Ok in H as (bs' & Hbs' & [= <-]).
    intros [|i] a'; simpl.
    + intros [= <-]. eauto.
    + by apply IH.
Qed.

(** ** Dictionaries *)

Section DictFacts.
Context {V : Type}.
Implicit Types (d : Dict.t V) (k : string) (f : V → V).

Lemma get_None d k : Dict.get k d = None ↔ k ∉ Dict.keys d.
Proof.
  induction d as [|[k' v] d IH]; simpl.
  - split; [intros _; apply not_elem_of_nil | done].
  - rewrite not_elem_of_cons. destruct (String.eqb_spec k' k) as [->|Hne].
    + split; [done | intros [? _]; done].
    + rewrite IH. naive_solver.
Qed.

Lemma contains_true d k : Dict.contains k d = true ↔ k ∈ Dict.keys d.
Proof.
  unfold Dict.contains. destruct (Dict.get k d) eqn:E.
  - split; [intros _ | done].
    destruct (decide (k ∈ Dict.keys d)) as [|Hn]; [done|].
    apply get_None in Hn. congruence.
  - apply get_None in E. split; [done | intros; done].
Qed.

Lemma contains_false d k : Dict.contains k d = false ↔ k ∉ Dict.keys d.
Proof.
  rewrite <- contains_true. destruct (Dict.contains k d); naive_solver.
Qed.

Lemma get_Some_elem d k v : Dict.get k d = Some v → (k, v) ∈ d.
Proof.
  induction d as [|[k' v'] d IH]; simpl; [done|].
  destruct (String.eqb_spec k' k) as [->|Hne].
  - intros [= ->]. apply list_elem_of_here.
  - intros H. apply list_elem_of_further; auto.
Qed.

Lemma elem_get_Some d k v :
  NoDup (Dict.keys d) → (k, v) ∈ d → Dict.get k d = Some v.
Proof.
  induction d as [|[k' v'] d IH]; simpl.
  - intros _ H. by apply elem_of_nil in H.
  - intros Hnd H. apply NoDup_cons in Hnd as [Hk' Hnd].
    apply elem_of_cons in H as [[= -> ->]|H].
    + by rewrite String.eqb_refl.
    + destruct (String.eqb_spec k' k) as [->|Hne]; [|auto].
      exfalso. apply Hk'. apply list_elem_of_fmap. by exists (k, v).
Qed.

Lemma keys_alter f k d : Dict.keys (Dict.alter f k d) = Dict.keys d.
Proof.
  induction d as [|[k' v] d IH]; simpl; [done|].
  destruct (String.eqb k' k); simpl; [done | by rewrite IH].
Qed.

Lemma keys_app d1 d2 : Dict.keys (d1 ++ d2) = Dict.keys d1 ++ Dict.keys d2.
Proof. apply fmap_app. Qed.

Lemma get_alter_ne f k k' d :
  k ≠ k' → Dict.get k' (Dict.alter f k d) = Dict.get k' d.
Proof.
  intros Hne. induction d as [|[k0 v] d IH]; simpl; [done|].
  destruct (String.eqb_spec k0 k) as [->|Hk]; simpl.
  - destruct (String.eqb_spec k k'); [done | done].
  - by rewrite IH.
Qed.

Lemma get_alter_eq f k d :
  Dict.get k (Dict.alter f k d) = f <$> Dict.get k d.
Proof.
  induction d as [|[k0 v] d IH]; simpl; [done|].
  destruct (String.eqb_spec k0 k) as [->|Hk]; simpl.
  - by rewrite String.eqb_refl.
  - destruct (String.eqb_spec k0 k); [done | by rewrite IH].
Qed.

Lemma contains_alter f k k' d :
  Dict.contains k' (Dict.alter f k d) = Dict.contains k' d.
Proof.
  apply eq_true_iff_eq. by rewrite !contains_true, keys_alter.
Qed.

Lemma alter_notin f k d : k ∉ Dict.keys d → Dict.alter f k d = d.
Proof.
  induction d as [|[k0 v] d IH]; simpl; [done|].
  rewrite not_elem_of_cons. intros [Hne Hn].
  destruct (String.eqb_spec k0 k); [congruence | by rewrite IH].
Qed.

Lemma alter_app_l f k d1 d2 :
  k ∈ Dict.keys d1 → Dict.alter f k (d1 ++ d2) = Dict.alter f k d1 ++ d2.
Proof.
  induction d1 as [|[k0 v] d1 IH]; simpl.
  - intros H. by apply elem_of_nil in H.
  - intros H. destruct (String.eqb_spec k0 k) as [->|Hk]; [done|].
    apply elem_of_cons in H as [?|H]; [congruence|]. by rewrite IH.
Qed.

Lemma alter_app_r f k d1 d2 :
  k ∉ Dict.keys d1 → Dict.alter f k (d1 ++ d2) = d1 ++ Dict.alter f k d2.
Proof.
  induction d1 as [|[k0 v] d1 IH]; simpl; [done|].
  rewrite not_elem_of_cons. intros [Hne Hn].
  destruct (String.eqb_spec k0 k); [congruence | by rewrite IH].
Qed.

Lemma alter_alter f g k d :
  Dict.alter f k (Dict.alter g k d) = Dict.alter (f ∘ g) k d.
Proof.
  induction d as [|[k0 v] d IH]; simpl; [done|].
  destruct (String.eqb_spec k0 k) as [->|Hk]; simpl.
  - by rewrite String.eqb_refl.
  - destruct (String.eqb_spec k0 k); [done | by rewrite IH].
Qed.

Lemma alter_comm f g k k' d :
  k ≠ k' →
  Dict.alter f k (Dict.alter g k' d) = Dict.alter g k' (Dict.alter f k d).
Proof.
  intros Hne. induction d as [|[k0 v] d IH]; simpl; [done|].
  destruct (String.eqb_spec k0 k'), (String.eqb_spec k0 k); subst; simpl;
    repeat match goal with
           | |- context [String.eqb ?a ?b] => destruct (String.eqb_spec a b)
           end; try congruence.
Qed.

Lemma alter_ext f g k d :
  (∀ v, f v = g v) → Dict.alter f k d = Dict.alter g k d.
Proof.
  intros Hfg. induction d as [|[k0 v] d IH]; simpl; [done|].
  destruct (String.eqb k0 k); [by rewrite Hfg | by rewrite IH].
Qed.

Lemma alter_id k d : Dict.alter (λ v, v) k d = d.
Proof.
  induction d as [|[k0 v] d IH]; simpl; [done|].
  destruct (String.eqb k0 k); [done | by rewrite IH].
Qed.

Lemma set_new k v d : k ∉ Dict.keys d → Dict.set k v d = d ++ [(k, v)].
Proof.
  intros H. unfold Dict.set. apply contains_false in H. by rewrite H.
Qed.

Lemma keys_set_NoDup k v d :
  NoDup (Dict.keys d) → NoDup (Dict.keys (Dict.set k v d)).
Proof.
  intros Hnd. unfold Dict.set. destruct (Dict.contains k d) eqn:E.
  - by rewrite keys_alter.
  - apply contains_false in E. rewrite keys_app. simpl.
    apply NoDup_app. split_and!; [done| |apply NoDup_singleton].
    intros k' Hk' ->%list_elem_of_singleton. done.
Qed.

Lemma elem_keys_set k k' v d :
  k' ∈ Dict.keys (Dict.set k v d) ↔ k' = k ∨ k' ∈ Dict.keys d.
Proof.
  unfold Dict.set. destruct (Dict.contains k d) eqn:E.
  - rewrite keys_alter. apply contains_true in E. naive_solver.
  - rewrite keys_app, elem_of_app. simpl. rewrite list_elem_of_singleton.
    naive_solver.
Qed.
End DictFacts.

(** ** Sorting *)

Section SortedFacts.
Context {A K : Type} (ltb : K → K → bool) (key : A → K).
Hypothesis ltb_asym : ∀ a b, ltb a b = true → ltb b a = false.

Lemma insert_stable_perm a l : Py.insert_stable ltb key a l ≡ₚ a :: l.
Proof.
  induction l as [|b l IH]; simpl; [done|].
  destruct (ltb (key b) (key a)); [|done].
  rewrite IH. apply Permutation_swap.
Qed.

Lemma sorted_perm l : Py.sorted ltb key l ≡ₚ l.
Proof.
  induction l as [|a l IH]; simpl; [done|].
  unfold Py.sorted in IH. rewrite insert_stable_perm. by rewrite IH.
Qed.

Lemma insert_stable_Sorted a l :
  Sorted (Py.not_after ltb key) l → Sorted (Py.not_after ltb key) (Py.insert_stable ltb key a l).
Proof.
  induction l as [|b l IH]; simpl; intros Hs.
  - repeat constructor.
  - destruct (ltb (key b) (key a)) eqn:E.
    + apply Sorted_inv in Hs as [Hs Hhd]. constructor; [by apply IH|].
      destruct l as [|c l]; simpl.
      * constructor. unfold Py.not_after. by apply ltb_asym.
      * destruct (ltb (key c) (key a)).
        -- constructor. by apply HdRel_inv in Hhd.
        -- constructor. unfold Py.not_after. by apply ltb_asym.
    + constructor; [done|]. by constructor.
Qed.

Lemma sorted_Sorted l : Sorted (Py.not_after ltb key) (Py.sorted ltb key l).
Proof.
  induction l as [|a l IH]; simpl; [constructor|].
  by apply insert_stable_Sorted.
Qed.

Lemma sorted_length l : length (Py.sorted ltb key l) = length l.
Proof. apply Permutation_length, sorted_perm. Qed.
End SortedFacts.

Lemma datetime_ltb_asym a b :
  Py.datetime_ltb a b = true → Py.datetime_ltb b a = false.
Proof.
  unfold Py.datetime_ltb. destruct a as [y m d], b as [y' m' d']; simpl.
  intros H.
  destruct (Z.ltb_spec y y'), (Z.eqb_spec y y'), (Z.ltb_spec m m'),
    (Z.eqb_spec m m'), (Z.ltb_spec d d'); simpl in H; try discriminate;
    destruct (Z.ltb_spec y' y), (Z.eqb_spec y' y), (Z.ltb_spec m' m),
      (Z.eqb_spec m' m), (Z.ltb_spec d' d); simpl; try reflexivity; lia.
Qed.

Lemma string_ltb_asym a b : String.ltb a b = true → String.ltb b a = false.
Proof.
  unfold String.ltb. rewrite (String.compare_antisym b a).
  destruct (String.compare a b); simpl; congruence.
Qed.

Lemma string_not_ltb_leb a b : String.ltb b a = false ↔ String.leb a b = true.
Proof.
  unfold String.ltb, String.leb. rewrite (String.compare_antisym b a).
  destruct (String.compare a b); simpl; split; congruence.
Qed.

Lemma sorted_strings_ascending (l : list string) :
  ascending (Py.sorted String.ltb id l).
Proof.
  unfold ascending.
  eapply Sorted_ind with
    (P := λ l, Sorted (λ a b, String.leb a b = true) l);
    [constructor| |apply (sorted_Sorted String.ltb id string_ltb_asym)].
  intros a l' _ IH Hhd. constructor; [done|].
  destruct Hhd as [|b l'' Hab]; constructor.
  by apply string_not_ltb_leb.
Qed.

(** [sort_by_key] keeps every entry and orders the keys. *)
Lemma keys_sort_by_key {V} (data : Dict.t V) :
  Dict.keys (sort_by_key data) = Py.sorted String.ltb id (Dict.keys data).
Proof.
  unfold sort_by_key.
  assert (Hin : ∀ k, k ∈ Py.sorted String.ltb id (Dict.keys data)
                     → k ∈ Dict.keys data).
  { intros k. by rewrite sorted_perm. }
  induction (Py.sorted String.ltb id (Dict.keys data)) as [|k l IH];
    simpl; [done|].
  destruct (Dict.get k data) as [v|] eqn:E; simpl.
  - f_equal. apply IH. intros k' Hk'. apply Hin. by right.
  - apply get_None in E. exfalso. apply E, Hin. by left.
Qed.

Lemma elem_sort_by_key {V} (data : Dict.t V) k v :
  (k, v) ∈ sort_by_key data → (k, v) ∈ data.
Proof.
  unfold sort_by_key. rewrite list_elem_of_omap.
  intros (k' & _ & H). destruct (Dict.get k' data) as [v'|] eqn:E;
    simpl in H; [|discriminate].
  injection H as -> ->. by apply get_Some_elem.
Qed.

(** ** The sorter *)

Lemma getindex_Ok {A} (l : list A) i a : getindex l i = Ok a ↔ l !! i = Some a.
Proof. unfold getindex. destruct (l !! i); split; congruence. Qed.

Lemma elem_zip_seq {A} (l : list A) n a i :
  (a, i) ∈ zip l (seq 0 n) → l !! i = Some a.
Proof.
  intros (j & Hj)%list_elem_of_lookup.
  apply lookup_zip_with_Some in Hj as (a' & i' & [= -> ->] & Ha & Hi).
  apply lookup_seq in Hi as [-> _]. done.
Qed.

Lemma sort_series_unparsed key s :
  date_parse_failure s → sort_series key s = Ok (s, [DateWarning key]).
Proof. unfold date_parse_failure, sort_series. by intros ->. Qed.

Lemma sort_series_parsed key s s' w :
  ¬ date_parse_failure s → sort_series key s = Ok (s', w) →
  chronological s' ∧ w = [].
Proof.
  unfold date_parse_failure, sort_series.
  destruct (mapM Py.strptime (Series.x s)) as [dates|] eqn:Hdates; [|done].
  intros _ H.
  set (L := Py.sorted Py.datetime_ltb fst
              (zip dates (seq 0 (length (Series.x s))))) in H.
  apply rbind_Ok in H as (x' & Hx' & H).
  apply rbind_Ok in H as (y' & Hy' & [= <- <-]).
  split; [|done]. unfold chronological; simpl.
  pose proof (rmapM_Ok_length _ _ _ Hx') as Hlx.
  pose proof (rmapM_Ok_length _ _ _ Hy') as Hly.
  split; [congruence|].
  exists (L.*1). split.
  - apply mapM_Some. apply Forall2_same_length_lookup_2.
    { rewrite Hlx, !length_fmap. done. }
    intros i xi d Hxi Hd.
    apply list_lookup_fmap_Some in Hd as ([d' idx] & -> & HL). simpl.
    assert (L.*2 !! i = Some idx) as Hidx.
    { apply list_lookup_fmap_Some. by exists (d', idx). }
    destruct (rmapM_Ok_lookup _ _ _ Hx' _ _ Hidx) as (xi' & Hxi' & Hget).
    assert (xi' = xi) as -> by congruence.
    apply getindex_Ok in Hget.
    assert ((d', idx) ∈ zip dates (seq 0 (length (Series.x s)))) as Hin.
    { rewrite <- (sorted_perm Py.datetime_ltb fst). subst L.
      eapply list_elem_of_lookup_2; eauto. }
    apply elem_zip_seq in Hin.
    apply mapM_Some in Hdates.
    eapply Forall2_lookup_lr in Hdates; eauto.
  - unfold non_decreasing.
    eapply Sorted_fmap;
      [|apply (sorted_Sorted Py.datetime_ltb fst datetime_ltb_asym)].
    intros a b Hab. exact Hab.
Qed.

Lemma sort_series_Ok key s s' w :
  sort_series key s = Ok (s', w) →
  (date_parse_failure s' ∧ s' = s ∧ w = [DateWarning key])
  ∨ (chronological s' ∧ w = []).
Proof.
  intros H. destruct (mapM Py.strptime (Series.x s)) eqn:E.
  - right. eapply sort_series_parsed; [|done].
    unfold date_parse_failure. congruence.
  - rewrite sort_series_unparsed in H by done.
    injection H as <- <-. by left.
Qed.


Lemma sort_data_keys (d d' : Collection) w :
  _sort_data_by_date d = Ok (d', w) → Dict.keys d' = Dict.keys d.
Proof.
  revert d' w; induction d as [|[k s] d IH]; simpl; intros d' w.
  - by intros [= <- <-].
  - intros H. apply rbind_Ok in H as ([s' w1] & _ & H).
    apply rbind_Ok in H as ([d'' w2] & Hd & [= <- <-]).
    simpl. f_equal. eapply IH; eauto.
Qed.

Lemma sort_data_elem (d d' : Collection) w k s' :
  _sort_data_by_date d = Ok (d', w) → (k, s') ∈ d' →
  ∃ s w', (k, s) ∈ d ∧ sort_series k s = Ok (s', w').
Proof.
  revert d' w; induction d as [|[k0 s0] d IH]; simpl; intros d' w.
  - intros [= <- <-] H. by apply elem_of_nil in H.
  - intros H. apply rbind_Ok in H as ([s1 w1] & Hs & H).
    apply rbind_Ok in H as ([d'' w2] & Hd & [= <- <-]).
    intros [[= -> ->]|Hin]%elem_of_cons.
    + exists s0, w1. split; [apply list_elem_of_here | done].
    + destruct (IH _ _ Hd Hin) as (s & w' & ? & ?).
      exists s, w'. split; [by apply list_elem_of_further | done].
Qed.

(** ** Merging a batch *)

Lemma merge_item_NoDup (acc : Collection) item :
  NoDup (Dict.keys acc) → NoDup (Dict.keys (merge_item acc item)).
Proof.
  destruct item as [k v]; simpl. intros Hnd.
  destruct (Dict.contains k acc); [by rewrite keys_alter|].
  by apply keys_set_NoDup.
Qed.

Lemma merge_batch_NoDup (acc b : Collection) :
  NoDup (Dict.keys acc) → NoDup (Dict.keys (merge_batch acc b)).
Proof.
  unfold merge_batch. revert acc.
  induction b as [|item b IH]; simpl; intros acc Hnd; [done|].
  by apply IH, merge_item_NoDup.
Qed.

Lemma merge_item_keys (acc : Collection) k v k' :
  k' ∈ Dict.keys (merge_item acc (k, v)) ↔ k' = k ∨ k' ∈ Dict.keys acc.
Proof.
  simpl. destruct (Dict.contains k acc) eqn:E.
  - rewrite keys_alter. apply contains_true in E. naive_solver.
  - apply elem_keys_set.
Qed.

Lemma merge_batch_keys (acc b : Collection) k :
  k ∈ Dict.keys (merge_batch acc b) ↔ k ∈ Dict.keys acc ∨ k ∈ Dict.keys b.
Proof.
  unfold merge_batch. revert acc.
  induction b as [|[k0 v0] b IH]; cbn [fold_left]; intros acc.
  - simpl. rewrite elem_of_nil. naive_solver.
  - rewrite IH, merge_item_keys. simpl. rewrite elem_of_cons. naive_solver.
Qed.

Lemma merge_batch_app (acc b c : Collection) :
  merge_batch acc (b ++ c) = merge_batch (merge_batch acc b) c.
Proof. apply fold_left_app. Qed.

Lemma merge_item_alter_ne (f : Series.t Z → Series.t Z) k k' v (acc : Collection) :
  k ≠ k' →
  merge_item (Dict.alter f k acc) (k', v) = Dict.alter f k (merge_item acc (k', v)).
Proof.
  intros Hne. simpl. rewrite contains_alter.
  destruct (Dict.contains k' acc) eqn:E.
  - by apply alter_comm.
  - apply contains_false in E.
    rewrite !set_new by (by rewrite ?keys_alter).
    destruct (decide (k ∈ Dict.keys acc)) as [Hin|Hnin].
    + by rewrite alter_app_l.
    + rewrite alter_app_r by done. rewrite (alter_notin _ _ acc) by done.
      simpl. destruct (String.eqb_spec k' k); [congruence | done].
Qed.

Lemma merge_batch_alter_notin (f : Series.t Z → Series.t Z) k (acc b : Collection) :
  k ∉ Dict.keys b →
  merge_batch (Dict.alter f k acc) b = Dict.alter f k (merge_batch acc b).
Proof.
  unfold merge_batch. revert acc.
  induction b as [|[k0 v0] b IH]; simpl; intros acc; [done|].
  rewrite not_elem_of_cons. intros [Hne Hn].
  change (fold_left merge_item b (merge_item (Dict.alter f k acc) (k0, v0))
          = Dict.alter f k (fold_left merge_item b (merge_item acc (k0, v0)))).
  rewrite merge_item_alter_ne by done. by apply IH.
Qed.

Lemma append_x_extends_through d : extends_through (Series.append_x d).
Proof.
  intros v s. unfold Series.extend, Series.append_x; simpl.
  by rewrite app_assoc.
Qed.

Lemma append_y_extends_through n : extends_through (Series.append_y n).
Proof.
  intros v s. unfold Series.extend, Series.append_y; simpl.
  by rewrite app_assoc.
Qed.

Lemma merge_item_alter_eq f k v (acc : Collection) :
  extends_through f →
  merge_item acc (k, f v) = Dict.alter f k (merge_item acc (k, v)).
Proof.
  intros Hf. simpl. destruct (Dict.contains k acc) eqn:E.
  - rewrite alter_alter. apply alter_ext. intros s. apply Hf.
  - apply contains_false in E. rewrite !set_new by done.
    rewrite alter_app_r by done. simpl. by rewrite String.eqb_refl.
Qed.

Lemma merge_batch_alter f k (acc b : Collection) :
  extends_through f → NoDup (Dict.keys b) → k ∈ Dict.keys b →
  merge_batch acc (Dict.alter f k b) = Dict.alter f k (merge_batch acc b).
Proof.
  intros Hf. unfold merge_batch. revert acc.
  induction b as [|[k0 v0] b IH]; simpl; intros acc Hnd Hin.
  - by apply elem_of_nil in Hin.
  - apply NoDup_cons in Hnd as [Hk0 Hnd].
    destruct (String.eqb_spec k0 k) as [->|Hne]; simpl.
    + change (fold_left merge_item b (merge_item acc (k, f v0))
              = Dict.alter f k (fold_left merge_item b (merge_item acc (k, v0)))).
      rewrite merge_item_alter_eq by done.
      by apply merge_batch_alter_notin.
    + apply elem_of_cons in Hin as [?|Hin]; [congruence|].
      by apply IH.
Qed.

Lemma extend_empty nm (s : Series.t Z) : Series.extend (Series.empty nm) s = s.
Proof. destruct s. unfold Series.extend; simpl. by rewrite !app_nil_r. Qed.

Lemma ensure_series_NoDup k nm (b : Collection) :
  NoDup (Dict.keys b) → NoDup (Dict.keys (ensure_series k nm b)).
Proof.
  unfold ensure_series. destruct (Dict.contains k b); [done|].
  apply keys_set_NoDup.
Qed.

Lemma ensure_series_keys k nm (b : Collection) :
  k ∈ Dict.keys (ensure_series k nm b).
Proof.
  unfold ensure_series. destruct (Dict.contains k b) eqn:E.
  - by apply contains_true.
  - apply elem_keys_set. by left.
Qed.

Lemma merge_batch_ensure k nm (acc b : Collection) :
  merge_batch acc (ensure_series k nm b) = ensure_series k nm (merge_batch acc b).
Proof.
  unfold ensure_series at 1. destruct (Dict.contains k b) eqn:E.
  - unfold ensure_series.
    assert (Dict.contains k (merge_batch acc b) = true) as ->; [|done].
    apply contains_true, merge_batch_keys. right. by apply contains_true.
  - apply contains_false in E. rewrite set_new by done.
    rewrite merge_batch_app. unfold merge_batch at 1; simpl.
    unfold ensure_series.
    destruct (Dict.contains k (merge_batch acc b)); [|done].
    erewrite alter_ext; [apply alter_id|]. apply extend_empty.
Qed.

(** ** Try bodies and the merge *)

Lemma mt_ret {A} (a : A) : merges_through (Try.ret a).
Proof. intros acc b Hnd. done. Qed.

Lemma mt_raise {A} e : merges_through (Try.raise (A := A) e).
Proof. intros acc b Hnd. done. Qed.

Lemma mt_lift {A} (r : result A) : merges_through (Try.lift r).
Proof. intros acc b Hnd. done. Qed.

Lemma mt_bind {A B} (m : Try.t Collection A) (k : A → Try.t Collection B) :
  merges_through m → (∀ a, merges_through (k a)) →
  merges_through (Try.bind m k).
Proof.
  intros Hm Hk acc b Hnd. unfold Try.bind.
  destruct (Hm acc b Hnd) as [Hnd' ->].
  destruct (m b) as [b' [a|e]]; simpl in *; [|done].
  apply Hk, Hnd'.
Qed.

Lemma mt_for {A} (l : list A) (body : A → Try.t Collection unit) :
  (∀ a, merges_through (body a)) → merges_through (Try.for_ l body).
Proof.
  intros Hbody. induction l as [|a l IH]; simpl.
  - apply mt_ret.
  - apply mt_bind; [apply Hbody | intros _; apply IH].
Qed.

Lemma mt_getitem (round_data : Round) k :
  merges_through (getitem round_data k).
Proof.
  unfold getitem. destruct (round_data !! k); [apply mt_ret | apply mt_raise].
Qed.

(** The four statements that open and fill an entry: the key is created if
    it is new, the date appended, the number parsed, the number appended. *)
Lemma mt_append k nm d (parsed : result Z) :
  merges_through
    (let* _ := Try.modify (ensure_series k nm) in
     let* _ := Try.modify (Dict.alter (Series.append_x d) k) in
     let* n := Try.lift parsed in
     Try.modify (Dict.alter (Series.append_y n) k)).
Proof.
  intros acc b Hnd. unfold Try.bind, Try.modify, Try.lift.
  pose proof (ensure_series_NoDup k nm b Hnd) as Hnd1.
  pose proof (ensure_series_keys k nm b) as Hin1.
  assert (merge_batch acc (Dict.alter (Series.append_x d) k (ensure_series k nm b))
          = Dict.alter (Series.append_x d) k (ensure_series k nm (merge_batch acc b)))
    as Hx.
  { rewrite merge_batch_alter by auto using append_x_extends_through.
    by rewrite merge_batch_ensure. }
  destruct parsed as [n|e]; simpl.
  - rewrite !keys_alter. split; [done|]. f_equal.
    rewrite merge_batch_alter;
      rewrite ?keys_alter; auto using append_y_extends_through.
    by rewrite Hx.
  - rewrite keys_alter. split; [done|]. by rewrite Hx.
Qed.

Lemma crs_round_mt round_data : merges_through (crs_round round_data).
Proof.
  unfold crs_round.
  apply mt_bind; [apply mt_getitem | intros draw_name].
  apply mt_bind; [apply mt_getitem | intros draw_date].
  apply mt_bind; [apply mt_getitem | intros draw_crs].
  apply mt_append.
Qed.

Lemma pool_field_mt round_data draw_date i :
  merges_through (pool_field round_data draw_date i).
Proof.
  unfold pool_field. destruct (round_data !! _); [|apply mt_ret].
  destruct (_ || _); [apply mt_ret|].
  apply mt_bind; [apply mt_lift | intros label].
  apply mt_append.
Qed.

Lemma pool_round_mt round_data : merges_through (pool_round round_data).
Proof.
  unfold pool_round.
  apply mt_bind; [apply mt_getitem | intros draw_date].
  destruct (Nat.eqb _ 17); [apply mt_ret|].
  apply mt_for. intros i. apply pool_field_mt.
Qed.

(** ** The loop over the rounds *)

Section ForRounds.
Context {St R : Type} (body : R → Try.t St unit).

Lemma for_rounds_from rounds s w0 :
  fold_left (Try.round_step body) rounds (s, w0)
  = ((Try.for_rounds body rounds s).1, w0 ++ (Try.for_rounds body rounds s).2).
Proof.
  unfold Try.for_rounds. revert s w0.
  induction rounds as [|r rounds IH]; intros s w0; cbn [fold_left].
  - simpl. by rewrite app_nil_r.
  - assert (Try.round_step body (s, w0) r
            = ((Try.round_step body (s, []) r).1,
               w0 ++ (Try.round_step body (s, []) r).2)) as ->.
    { unfold Try.round_step; simpl. by destruct (Try.except (body r) s). }
    destruct (Try.round_step body (s, []) r) as [s' w]; simpl.
    rewrite (IH s' (w0 ++ w)), (IH s' w). simpl. by rewrite app_assoc.
Qed.

Lemma for_rounds_cons r rounds s :
  Try.for_rounds body (r :: rounds) s
  = ((Try.for_rounds body rounds (Try.except (body r) s).1).1,
     (Try.except (body r) s).2
     ++ (Try.for_rounds body rounds (Try.except (body r) s).1).2).
Proof.
  unfold Try.for_rounds at 1. cbn [fold_left].
  assert (Try.round_step body (s, []) r = Try.except (body r) s) as ->.
  { unfold Try.round_step; simpl. by destruct (Try.except (body r) s). }
  destruct (Try.except (body r) s) as [s' w]; simpl.
  apply for_rounds_from.
Qed.

Lemma for_rounds_app rounds1 rounds2 s :
  Try.for_rounds body (rounds1 ++ rounds2) s
  = ((Try.for_rounds body rounds2 (Try.for_rounds body rounds1 s).1).1,
     (Try.for_rounds body rounds1 s).2
     ++ (Try.for_rounds body rounds2 (Try.for_rounds body rounds1 s).1).2).
Proof.
  unfold Try.for_rounds at 1. rewrite fold_left_app.
  change (fold_left (Try.round_step body) rounds1 (s, []))
    with (Try.for_rounds body rounds1 s).
  destruct (Try.for_rounds body rounds1 s) as [s1 w1]; simpl.
  apply for_rounds_from.
Qed.
End ForRounds.

Lemma except_merge (m : Try.t Collection unit) acc b :
  merges_through m → NoDup (Dict.keys b) →
  NoDup (Dict.keys (Try.except m b).1)
  ∧ Try.except m (merge_batch acc b)
    = (merge_batch acc (Try.except m b).1, (Try.except m b).2).
Proof.
  intros Hm Hnd. destruct (Hm acc b Hnd) as [Hnd' Heq].
  unfold Try.except. rewrite Heq.
  destruct (m b) as [b' [[]|e]]; simpl in *; done.
Qed.

Lemma for_rounds_merge (body : Round → Try.t Collection unit) rounds acc b :
  (∀ r, merges_through (body r)) → NoDup (Dict.keys b) →
  NoDup (Dict.keys (Try.for_rounds body rounds b).1)
  ∧ Try.for_rounds body rounds (merge_batch acc b)
    = (merge_batch acc (Try.for_rounds body rounds b).1,
       (Try.for_rounds body rounds b).2).
Proof.
  intros Hbody. revert b.
  induction rounds as [|r rounds IH]; intros b Hnd; [done|].
  rewrite !for_rounds_cons.
  destruct (except_merge (body r) acc b (Hbody r) Hnd) as [Hnd' ->].
  simpl. destruct (IH _ Hnd') as [Hnd'' ->]. done.
Qed.

(** ** Batches *)

Section Batches.
Context (body : Round → Try.t Collection unit).
Hypothesis body_merges : ∀ r, merges_through (body r).
Context (batch_size : Z) (rounds : list Round).
Hypothesis batch_size_pos : 0 < batch_size.

(** After [c] batches the accumulated data and the log are those of one
    pass over the rounds the batches cover. *)
Lemma batches_prefix (c : nat) :
  fold_left (batch_step body batch_size rounds)
    ((λ j : nat, 0 + Z.of_nat j * batch_size) <$> seq 0 c) ([], [])
  = Try.for_rounds body (take (c * Z.to_nat batch_size) rounds) [].
Proof.
  induction c as [|c IH].
  - done.
  - rewrite seq_S, fmap_app, fold_left_app, IH. simpl.
    unfold batch_step, Py.slice.
    replace (Z.to_nat (0 + Z.of_nat c * batch_size + batch_size
                       - (0 + Z.of_nat c * batch_size)))
      with (Z.to_nat batch_size) by lia.
    replace (Z.to_nat (0 + Z.of_nat c * batch_size))
      with (c * Z.to_nat batch_size)%nat by lia.
    replace (Z.to_nat batch_size + c * Z.to_nat batch_size)%nat
      with (c * Z.to_nat batch_size + Z.to_nat batch_size)%nat by lia.
    rewrite <- (take_take_drop rounds).
    set (done_ := take (c * Z.to_nat batch_size) rounds).
    set (batch := take (Z.to_nat batch_size)
                    (drop (c * Z.to_nat batch_size) rounds)).
    rewrite for_rounds_app.
    destruct (Try.for_rounds body done_ []) as [acc w0]; simpl.
    destruct (for_rounds_merge body batch acc [] body_merges (NoDup_nil_2))
      as [_ Hm].
    change (merge_batch acc []) with acc in Hm. rewrite Hm.
    destruct batch as [|r batch]; [by rewrite app_nil_r|].
    by destruct (Try.for_rounds body (r :: batch) []).
Qed.

(** The batch loop is one pass over all the rounds. *)
Lemma process_in_batches_one_pass :
  process_in_batches body batch_size rounds
  = Ok (Try.for_rounds body rounds []).
Proof.
  unfold process_in_batches, Py.range.
  destruct (Z.eqb_spec batch_size 0) as [|_]; [lia|].
  f_equal. rewrite batches_prefix. f_equal.
  apply take_ge. unfold Py.range_len.
  destruct (Z.ltb_spec 0 batch_size) as [_|]; [|lia].
  destruct (Z.ltb_spec 0 (Z.of_nat (length rounds))) as [Hn|Hn].
  - pose proof (Z.mul_succ_div_gt (Z.of_nat (length rounds) - 0 - 1)
                  batch_size batch_size_pos) as Hgt.
    pose proof (Z.div_pos (Z.of_nat (length rounds) - 0 - 1) batch_size
                  ltac:(lia) batch_size_pos) as Hq.
    set (q := (Z.of_nat (length rounds) - 0 - 1) / batch_size) in *.
    apply Nat2Z.inj_le. rewrite Nat2Z.inj_mul, !Z2Nat.id by lia. lia.
  - lia.
Qed.
End Batches.

(** A batch size that is not positive: zero makes [range] raise, a negative
    one gives no batch at all. *)
Lemma process_in_batches_negative body batch_size rounds :
  batch_size < 0 → process_in_batches body batch_size rounds = Ok ([], []).
Proof.
  intros Hneg. unfold process_in_batches, Py.range, Py.range_len.
  destruct (Z.eqb_spec batch_size 0); [lia|].
  destruct (Z.ltb_spec 0 batch_size); [lia|].
  destruct (Z.ltb_spec (Z.of_nat (length rounds)) 0); [lia|]. done.
Qed.

Lemma process_in_batches_NoDup body batch_size rounds acc w :
  process_in_batches body batch_size rounds = Ok (acc, w) →
  NoDup (Dict.keys acc).
Proof.
  unfold process_in_batches.
  destruct (Py.range _ _ _) as [starts|]; [|done].
  intros [= H]. revert H.
  assert (NoDup (Dict.keys (([], []) : Collection * list warning).1)) as Hnd
    by apply NoDup_nil_2.
  revert Hnd. generalize (([], []) : Collection * list warning).
  induction starts as [|i starts IH]; intros st Hnd; simpl.
  - by intros ->.
  - apply IH. unfold batch_step. destruct (Py.slice _ _ _); [done|].
    destruct (Try.for_rounds _ _ _) as [b wb]; simpl.
    by apply merge_batch_NoDup.
Qed.

Lemma sort_by_key_NoDup {V} (data : Dict.t V) :
  NoDup (Dict.keys data) → NoDup (Dict.keys (sort_by_key data)).
Proof. rewrite keys_sort_by_key. by rewrite sorted_perm. Qed.

Lemma finish_keys r out w :
  finish r = Ok (out, w) →
  ∃ acc w0, r = Ok (acc, w0)
            ∧ Dict.keys out = Py.sorted String.ltb id (Dict.keys acc).
Proof.
  unfold finish. intros H.
  apply rbind_Ok in H as ([acc w0] & -> & H).
  apply rbind_Ok in H as ([data w1] & Hsort & [= <- <-]).
  exists acc, w0. split; [done|].
  rewrite keys_sort_by_key. by rewrite (sort_data_keys _ _ _ Hsort).
Qed.

(** ** The draw-size transform *)

Lemma rmapM_Ok_Forall2 {A B} (f : A → result B) (l : list A) (bs : list B) :
  rmapM f l = Ok bs → Forall2 (λ a b, f a = Ok b) l bs.
Proof.
  revert bs; induction l as [|a l IH]; intros bs; simpl.
  - intros [= <-]. constructor.
  - intros H. apply rbind_Ok in H as (b & Hb & H).
    apply rbind_Ok in H as (bs' & Hbs' & [= <-]).
    constructor; auto.
Qed.

Lemma for_rounds_invariant {St R} (body : R → Try.t St unit) (P : St → Prop)
    rounds s :
  (∀ r s, P s → P (Try.except (body r) s).1) →
  P s → P (Try.for_rounds body rounds s).1.
Proof.
  intros Hbody. revert s. induction rounds as [|r rounds IH]; intros s Hs.
  - done.
  - rewrite for_rounds_cons. simpl. apply IH, Hbody, Hs.
Qed.

Lemma draw_size_round_NoDup round_data (st : MonthState) :
  NoDup (Dict.keys st.2) →
  NoDup (Dict.keys (Try.except (draw_size_round round_data) st).1.2).
Proof.
  intros Hnd. unfold Try.except, draw_size_round, Try.bind, getitem,
    Try.modify, Try.lift, Try.ret, Try.raise.
  destruct (round_data !! "drawDate") as [draw_date|]; [|done].
  destruct (round_data !! "drawSize") as [draw_size_text|]; [|done].
  destruct (_parse_numeric_value draw_size_text) as [draw_size|]; [|done].
  cbn [fst snd].
  destruct (round_data !! "dd18") as [total_text|]; [|done].
  destruct (_parse_numeric_value total_text) as [total|]; [|done].
  cbn [fst snd]. rewrite keys_alter.
  destruct (Dict.contains _ st.2); [done|]. by apply keys_set_NoDup.
Qed.

Lemma filter_keys_elem {V} (P : string * V → Prop) `{∀ kv, Decision (P kv)}
    (d : Dict.t V) k :
  k ∈ Dict.keys (filter P d) → k ∈ Dict.keys d.
Proof.
  unfold Dict.keys. rewrite !list_elem_of_fmap.
  intros ([k' v] & -> & Hin). apply list_elem_of_filter in Hin as [_ Hin].
  by exists (k', v).
Qed.

Lemma filter_keys_NoDup {V} (P : string * V → Prop) `{∀ kv, Decision (P kv)}
    (d : Dict.t V) :
  NoDup (Dict.keys d) → NoDup (Dict.keys (filter P d)).
Proof.
  induction d as [|[k v] d IH]; [done|].
  intros Hnd. change (Dict.keys ((k, v) :: d)) with (k :: Dict.keys d) in Hnd.
  apply NoDup_cons in Hnd as [Hk Hnd]. rewrite (filter_cons P (k, v) d).
  destruct (decide (P (k, v))); [|by apply IH].
  change (NoDup (k :: Dict.keys (filter P d))).
  apply NoDup_cons. split; [|by apply IH].
  intros Hin. by apply Hk, (filter_keys_elem P).
Qed.

Lemma positive_value_spec (a : Z) (b : positive) :
  positive_value (a # b) = true ↔ (0 < a # b)%Q.
Proof.
  unfold positive_value, Qlt; simpl. rewrite Z.ltb_lt. lia.
Qed.

Lemma mean_Ok_shape candidates value :
  mean candidates = Ok value →
  (candidates = [] ∧ value = 0%Q)
  ∨ (candidates ≠ []
     ∧ value = (foldr Z.add 0 candidates # Pos.of_nat (length candidates))).
Proof.
  destruct candidates as [|c cs]; simpl.
  - intros [= <-]. by left.
  - unfold true_div. destruct (_ <=? _); [done|]. intros [= <-]. by right.
Qed.

Lemma means_elem (cand : Dict.t (list Z)) (means : Dict.t Q) month value :
  rmapM (λ '(month, candidates),
           rbind (mean candidates) (λ value : Q, Ok (month, value))) cand
  = Ok means →
  (month, value) ∈ means
  ↔ ∃ cs, (month, cs) ∈ cand ∧ mean cs = Ok value.
Proof.
  intros H%rmapM_Ok_Forall2. split.
  - intros (i & Hi)%list_elem_of_lookup.
    destruct (Forall2_lookup_r _ _ _ _ _ H Hi) as ([m cs] & Hc & Hf).
    apply rbind_Ok in Hf as (v & Hv & [= -> ->]).
    exists cs. split; [|done]. eapply list_elem_of_lookup_2; eauto.
  - intros (cs & (i & Hi)%list_elem_of_lookup & Hv).
    destruct (Forall2_lookup_l _ _ _ _ _ H Hi) as ([m v] & Hm & Hf).
    rewrite Hv in Hf. simpl in Hf. injection Hf as <- <-.
    eapply list_elem_of_lookup_2; eauto.
Qed.

Lemma means_keys (cand : Dict.t (list Z)) (means : Dict.t Q) :
  rmapM (λ '(month, candidates),
           rbind (mean candidates) (λ value : Q, Ok (month, value))) cand
  = Ok means →
  Dict.keys means = Dict.keys cand.
Proof.
  intros H%rmapM_Ok_Forall2.
  induction H as [|[m cs] [m' v] cand means Hf _ IH]; [done|].
  apply rbind_Ok in Hf as (v' & _ & [= -> ->]).
  unfold Dict.keys in *. rewrite !fmap_cons. simpl. by f_equal.
Qed.

Lemma elem_keys {V} (d : Dict.t V) k : k ∈ Dict.keys d ↔ ∃ v, (k, v) ∈ d.
Proof.
  unfold Dict.keys. rewrite list_elem_of_fmap. split.
  - intros ([k' v] & -> & Hin). by exists v.
  - intros (v & Hin). by exists (k, v).
Qed.

Lemma finish_series r out w key s :
  finish r = Ok (out, w) → (key, s) ∈ out →
  date_parse_failure s ∨ chronological s.
Proof.
  unfold finish. intros H Hin.
  apply rbind_Ok in H as ([acc w0] & _ & H).
  apply rbind_Ok in H as ([data w1] & Hsort & [= <- <-]).
  apply elem_sort_by_key in Hin.
  destruct (sort_data_elem _ _ _ _ _ Hsort Hin) as (s0 & w' & _ & Hs).
  apply sort_series_Ok in Hs as [(? & _)|(? & _)]; auto.
Qed.

Lemma draw_size_shape rounds invitations candidates w :
  _process_draw_size_trends rounds = Ok ((invitations, candidates), w) →
  Series.x invitations = Series.x candidates
  ∧ length (Series.x invitations) = length (Series.y invitations)
  ∧ length (Series.x candidates) = length (Series.y candidates)
  ∧ ascending (Series.x invitations).
Proof.
  unfold _process_draw_size_trends.
  destruct (Try.for_rounds _ _ _) as [[inv cand] w0].
  intros H. apply rbind_Ok in H as (means & _ & H).
  apply rbind_Ok in H as (ys & Hys & H).
  apply rbind_Ok in H as (vs & Hvs & [= <- <- <-]). simpl.
  apply rmapM_Ok_length in Hys, Hvs.
  split_and!; [done | done | done | apply sorted_strings_ascending].
Qed.

(** ** The pool fields of a round *)

Lemma pool_field_cases round_data date i (b : Collection) :
  (1 ≤ i ≤ 17)%nat →
  pool_field round_data date i b
  = match classify round_data i with
    | Skipped => (b, Ok tt)
    | Numeric n => (append_point (pool_name i) date n b, Ok tt)
    | Malformed =>
        (Dict.alter (Series.append_x date) (pool_name i)
           (ensure_series (pool_name i) (Py.title (pool_name i)) b),
         Raise ValueError)
    end.
Proof.
  intros Hi. unfold pool_field, classify, pool_name.
  destruct (round_data !! _) as [value|]; [|done].
  destruct (_ || _); [done|].
  assert (is_Some (CRS_POOL_RANGES !! (i - 1)%nat)) as [label Hlabel].
  { apply lookup_lt_is_Some. simpl. lia. }
  unfold Try.bind, Try.lift, Try.modify, getindex. rewrite Hlabel. simpl.
  by destruct (Py.int _).
Qed.


Lemma pool_fields_fine round_data date l (b : Collection) :
  (∀ i, i ∈ l → (1 ≤ i ≤ 17)%nat ∧ classify round_data i ≠ Malformed) →
  Try.for_ l (pool_field round_data date) b
  = (fold_left (contribute round_data date) l b, Ok tt).
Proof.
  revert b. induction l as [|i l IH]; intros b Hl; [done|].
  destruct (Hl i ltac:(left)) as [Hi Hfine].
  simpl. unfold Try.bind. rewrite pool_field_cases by done.
  unfold contribute.
  destruct (classify round_data i); [| |done];
    apply IH; intros j Hj; apply Hl; by right.
Qed.

Lemma get_set_ne {V} k k' (v : V) (d : Dict.t V) :
  k ≠ k' → Dict.get k (Dict.set k' v d) = Dict.get k d.
Proof.
  intros Hne. unfold Dict.set. destruct (Dict.contains k' d).
  - by apply get_alter_ne.
  - induction d as [|[k0 v0] d IH]; simpl.
    + destruct (String.eqb_spec k' k); [congruence | done].
    + destruct (String.eqb k0 k); [done | apply IH].
Qed.

Lemma get_app_new {V} k (v : V) (d : Dict.t V) :
  k ∉ Dict.keys d → Dict.get k (d ++ [(k, v)]) = Some v.
Proof.
  induction d as [|[k0 v0] d IH]; simpl.
  - intros _. by rewrite String.eqb_refl.
  - rewrite not_elem_of_cons. intros [Hne Hn].
    destruct (String.eqb_spec k0 k); [congruence | auto].
Qed.

Lemma get_set_eq {V} k (v : V) (d : Dict.t V) :
  Dict.get k (Dict.set k v d) = Some v.
Proof.
  unfold Dict.set. destruct (Dict.contains k d) eqn:E.
  - rewrite get_alter_eq. unfold Dict.contains in E.
    by destruct (Dict.get k d).
  - apply get_app_new. by apply contains_false.
Qed.

Lemma get_ensure_ne k k' nm (b : Collection) :
  k ≠ k' → Dict.get k (ensure_series k' nm b) = Dict.get k b.
Proof.
  intros Hne. unfold ensure_series.
  destruct (Dict.contains k' b); [done | by apply get_set_ne].
Qed.

Lemma get_append_point key k d n (b : Collection) :
  Dict.get key (append_point k d n b)
  = if String.eqb k key
    then Some (Series.append_y n
                 (Series.append_x d
                    (default (Series.empty (Py.title key)) (Dict.get key b))))
    else Dict.get key b.
Proof.
  unfold append_point. destruct (String.eqb_spec k key) as [->|Hne].
  - rewrite !get_alter_eq. unfold ensure_series.
    destruct (Dict.contains key b) eqn:E.
    + unfold Dict.contains in E. by destruct (Dict.get key b).
    + rewrite get_set_eq. apply contains_false, get_None in E.
      by rewrite E.
  - rewrite !get_alter_ne by done. by apply get_ensure_ne.
Qed.





(** ** Rounds that lack a field *)

(** A round without a name, a date or a score leaves the batch data of the
    score transform as it was and is logged. *)
Lemma crs_round_missing_field (round_data : Round) (b : Collection) :
  round_data !! "drawName" = None ∨ round_data !! "drawDate" = None
  ∨ round_data !! "drawCRS" = None →
  ∃ key, Try.except (crs_round round_data) b
         = (b, [RoundWarning (KeyError key)]).
Proof.
  intros H. unfold Try.except, crs_round, Try.bind, getitem, Try.raise,
    Try.ret.
  destruct (round_data !! "drawName"); [|by eexists].
  destruct (round_data !! "drawDate"); [|by eexists].
  destruct (round_data !! "drawCRS"); [|by eexists].
  destruct H as [?|[?|?]]; done.
Qed.

(** The same round on the same input, sorted by the score transform: there
    the dates are compared as dates, September before October. *)
Example unpadded_dates_sorted_by_score_transform :
  _process_crs_trends (mk_processor BATCH_SIZE) unpadded_rounds
  = Ok ([("General",
          Series.mk ["2024-9-15"; "2024-10-15"] [500; 510]
                    "scatter" "lines+markers" "General")], []).
Proof. vm_compute. reflexivity. Qed.

(** * The claims *)

(** C1 (the code departs from it). One round whose cutoff score is not
    numeric is not skipped: its date is appended before the score is parsed,
    the series is left with one more date than scores, and the sorter then
    raises an [IndexError] that nothing catches, so the score transform and
    the whole run abort, and nothing is saved. *)
Theorem malformed_score_aborts_the_run :
  _process_crs_trends (mk_processor BATCH_SIZE) malformed_score_rounds
  = Raise IndexError
  ∧ process_all_trends (mk_processor BATCH_SIZE) malformed_score_rounds
    = (mk_saved None None None, Some IndexError).
Proof. split; vm_compute; reflexivity. Qed.

(** C2 (as the code has it). In every output the run saves: a series of the
    score-trend or pool-trend collection on which the sorter met no
    date-parse failure has as many dates as values, and its dates are in
    calendar order; the two draw-size series have as many months as values
    and share their months, which are in ascending order as strings. *)
Theorem saved_series_consistent_and_ordered
    (self : ImmigrationDataProcessor) (rounds : list Round)
    (saved : Saved) (e : option exn) :
  process_all_trends self rounds = (saved, e) →
  (∀ out key s,
     crs_trend saved = Some out ∨ pool_trend saved = Some out →
     (key, s) ∈ out → date_parse_failure s ∨ chronological s)
  ∧ (∀ invitations candidates,
       draw_size saved = Some (invitations, candidates) →
       Series.x invitations = Series.x candidates
       ∧ length (Series.x invitations) = length (Series.y invitations)
       ∧ length (Series.x candidates) = length (Series.y candidates)
       ∧ ascending (Series.x invitations)).
Proof.
  unfold process_all_trends, _process_crs_trends, _process_pool_trends.
  destruct (finish (process_in_batches crs_round _ _))
    as [[crs w1]|e1] eqn:Hcrs.
  2:{ intros [= <- <-]. split; [intros ? ? ? [?|?]; done | done]. }
  destruct (finish (process_in_batches pool_round _ _))
    as [[pool w2]|e2] eqn:Hpool.
  2:{ intros [= <- <-]. split; [|done].
      intros out key s [[= <-]|?]; [|done]. by eapply finish_series. }
  assert (∀ out key s, Some crs = Some out ∨ Some pool = Some out →
            (key, s) ∈ out → date_parse_failure s ∨ chronological s) as Hboth.
  { intros out key s [[= <-]|[= <-]]; by eapply finish_series. }
  destruct (_process_draw_size_trends rounds) as [[[inv cand] w3]|e3] eqn:Hds.
  - intros [= <- <-]. split; [exact Hboth|].
    intros invitations candidates [= <- <-]. by eapply draw_size_shape.
  - intros [= <- <-]. split; [exact Hboth | done].
Qed.

Lemma saved_series_consistent_and_ordered_witness :
  date_parse_failure
    (Series.mk ["2024-01-01"; "2024-02-01"] [600; 500]
               "scatter" "lines+markers" "General")
  ∨ chronological
      (Series.mk ["2024-01-01"; "2024-02-01"] [600; 500]
                 "scatter" "lines+markers" "General").
Proof.
  refine (proj1 (saved_series_consistent_and_ordered (mk_processor 1)
            general_rounds
            (mk_saved (Some [("General",
                         Series.mk ["2024-01-01"; "2024-02-01"] [600; 500]
                                   "scatter" "lines+markers" "General")])
                      (Some []) (Some (Series.mk [] [] "scatter"
                         "lines+markers" "Draw Invitations",
                         Series.mk [] [] "scatter" "lines+markers"
                         "Total(Mean) Candidates")))
            None _) _ "General" _ _ _).
  - vm_compute. reflexivity.
  - left. reflexivity.
  - apply list_elem_of_here.
Defined.

(** C2 as stated fails on the draw-size output: the months of two rounds
    whose dates parse, September and October 2024 written without padding,
    come out in string order, October first, which is not calendar order. *)
Lemma unpadded_months_not_in_calendar_order :
  mapM Py.strptime ["2024-9-15"; "2024-10-15"]
  = Some [Py.mk_datetime 2024 9 15; Py.mk_datetime 2024 10 15]
  ∧ ∃ out w,
      _process_draw_size_trends unpadded_rounds = Ok (out, w)
      ∧ Series.x out.1 = ["2024-10"; "2024-9"]
      ∧ ¬ calendar_ordered_months (Series.x out.1).
Proof.
  split; [reflexivity|].
  eexists. eexists. split; [vm_compute; reflexivity|]. simpl.
  split; [reflexivity|].
  intros (dates & Hdates & Hsorted).
  vm_compute in Hdates. injection Hdates as <-.
  apply Sorted_inv in Hsorted as [_ Hhd].
  apply HdRel_inv in Hhd. discriminate Hhd.
Qed.

(** C3. Batching is output-invariant: for every list of rounds, the score
    transform run by a processor built with batch size 1 and by one built
    with batch size N, the length of the list, give the same result (the same
    collection, the same log, or the same exception), and so does the pool
    transform. *)
Theorem batching_is_output_invariant
    (rounds : list Round) (one full : ImmigrationDataProcessor) :
  __init__ true (Some 1) = Ok one →
  __init__ true (Some (Z.of_nat (length rounds))) = Ok full →
  _process_crs_trends one rounds = _process_crs_trends full rounds
  ∧ _process_pool_trends one rounds = _process_pool_trends full rounds.
Proof.
  unfold __init__. intros [= <-] [= <-].
  set (n := if Z.of_nat (length rounds) =? 0 then BATCH_SIZE
            else Z.of_nat (length rounds)).
  assert (0 < n) as Hpos.
  { subst n. destruct (Z.eqb_spec (Z.of_nat (length rounds)) 0);
      [reflexivity | lia]. }
  assert (0 < (if 1 =? 0 then BATCH_SIZE else 1)) as Hone by reflexivity.
  unfold _process_crs_trends, _process_pool_trends; cbn [batch_size].
  rewrite (process_in_batches_one_pass crs_round crs_round_mt _ rounds Hone).
  rewrite (process_in_batches_one_pass crs_round crs_round_mt _ rounds Hpos).
  rewrite (process_in_batches_one_pass pool_round pool_round_mt _ rounds Hone).
  rewrite (process_in_batches_one_pass pool_round pool_round_mt _ rounds Hpos).
  done.
Qed.

Lemma batching_is_output_invariant_witness :
  _process_crs_trends (mk_processor 1) general_rounds
  = _process_crs_trends (mk_processor 2) general_rounds
  ∧ _process_pool_trends (mk_processor 1) general_rounds
    = _process_pool_trends (mk_processor 2) general_rounds.
Proof.
  apply (batching_is_output_invariant general_rounds); reflexivity.
Defined.

(** C4 (as the code has it). A batch size that is not positive is not
    rejected: with the input file present the processor is built, zero
    standing for the default 8 and a negative value being kept, and the batch
    loop of both transforms runs without an exception. *)
Theorem nonpositive_batch_size_accepted (n : Z) (rounds : list Round) :
  n ≤ 0 →
  ∃ self, __init__ true (Some n) = Ok self
    ∧ batch_size self = (if n =? 0 then BATCH_SIZE else n)
    ∧ (∃ acc, process_in_batches crs_round (batch_size self) rounds = Ok acc)
    ∧ (∃ acc, process_in_batches pool_round (batch_size self) rounds = Ok acc).
Proof.
  intros Hn. eexists. split; [reflexivity|]. split; [reflexivity|].
  cbn [batch_size]. destruct (Z.eqb_spec n 0) as [->|Hne].
  - split; eexists;
      [apply (process_in_batches_one_pass crs_round crs_round_mt)
      |apply (process_in_batches_one_pass pool_round pool_round_mt)];
      reflexivity.
  - split; eexists; apply process_in_batches_negative; lia.
Qed.

Lemma nonpositive_batch_size_accepted_witness :
  ∃ self, __init__ true (Some (-4)) = Ok self
    ∧ batch_size self = -4
    ∧ (∃ acc, process_in_batches crs_round (batch_size self) general_rounds
              = Ok acc)
    ∧ (∃ acc, process_in_batches pool_round (batch_size self) general_rounds
              = Ok acc).
Proof.
  apply (nonpositive_batch_size_accepted (-4) general_rounds). lia.
Defined.

(** C4 as stated fails: not every non-positive batch size is rejected when
    the processor is built; zero is accepted. *)
Lemma nonpositive_batch_size_not_rejected :
  ¬ (∀ n : Z, n ≤ 0 → ∃ e, __init__ true (Some n) = Raise e).
Proof. intros H. destruct (H 0 ltac:(lia)) as [e He]. discriminate He. Qed.




(** C6. In the draw-size output the two series have the same months, in
    ascending order and without repetition; a month is among them exactly
    when candidate counts were collected for it and their mean is positive,
    so a month with an empty or absent candidate list or with a zero mean is
    in neither series; and the invitation series gives, for each of these
    months and no other, the sum accumulated for it. *)
Theorem draw_size_months_survive
    (rounds : list Round) (draw_invitations_per_month : Dict.t Z)
    (candidates_per_month : Dict.t (list Z)) (w w' : list warning)
    (invitations : Series.t Z) (candidates : Series.t Q) :
  Try.for_rounds draw_size_round rounds ([], [])
  = ((draw_invitations_per_month, candidates_per_month), w) →
  _process_draw_size_trends rounds = Ok ((invitations, candidates), w') →
  Series.x invitations = Series.x candidates
  ∧ NoDup (Series.x invitations)
  ∧ ascending (Series.x invitations)
  ∧ (∀ month, month ∈ Series.x invitations
              ↔ surviving candidates_per_month month)
  ∧ (∀ month cs value,
       Dict.get month candidates_per_month = Some cs →
       cs = [] ∨ (mean cs = Ok value ∧ (value == 0)%Q) →
       month ∉ Series.x invitations)
  ∧ (∀ month, Dict.get month candidates_per_month = None →
       month ∉ Series.x invitations)
  ∧ Forall2 (λ month n, Dict.get month draw_invitations_per_month = Some n)
            (Series.x invitations) (Series.y invitations)
  ∧ Forall2 (λ month value, ∃ cs, Dict.get month candidates_per_month = Some cs
                                  ∧ mean cs = Ok value)
            (Series.x candidates) (Series.y candidates).
Proof.
  intros Hloop Hout.
  assert (NoDup (Dict.keys candidates_per_month)) as Hnd.
  { pose proof (for_rounds_invariant draw_size_round
                  (λ st : MonthState, NoDup (Dict.keys st.2)) rounds ([], [])
                  draw_size_round_NoDup (NoDup_nil_2)) as H.
    by rewrite Hloop in H. }
  unfold _process_draw_size_trends in Hout. rewrite Hloop in Hout.
  apply rbind_Ok in Hout as (means & Hmeans & Hout).
  set (valid := filter _ means) in Hout.
  apply rbind_Ok in Hout as (ys & Hys & Hout).
  apply rbind_Ok in Hout as (vs & Hvs & [= <- <- <-]). simpl.
  assert (Hvalid : ∀ month value,
            (month, value) ∈ valid
            ↔ positive_value value = true
              ∧ ∃ cs, Dict.get month candidates_per_month = Some cs
                      ∧ mean cs = Ok value).
  { intros month value. subst valid. rewrite list_elem_of_filter.
    rewrite (means_elem _ _ _ _ Hmeans). split.
    - intros [Hp (cs & Hin & Hm)]. split; [done|].
      exists cs. split; [by apply elem_get_Some | done].
    - intros [Hp (cs & Hget & Hm)]. split; [done|].
      exists cs. split; [by apply get_Some_elem | done]. }
  assert (Hsurv : ∀ month, month ∈ Py.sorted String.ltb id (Dict.keys valid)
                           ↔ surviving candidates_per_month month).
  { intros month. rewrite sorted_perm, elem_keys. unfold surviving. split.
    - intros (value & (Hp & cs & Hget & Hm)%Hvalid).
      exists cs, value. destruct (mean_Ok_shape _ _ Hm) as [[-> ->]|[Hne ->]].
      + discriminate Hp.
      + by apply positive_value_spec in Hp.
    - intros (cs & value & Hget & Hne & Hm & Hpos).
      exists value. apply Hvalid. split; [|eauto].
      destruct (mean_Ok_shape _ _ Hm) as [[-> ->]|[_ ->]]; [done|].
      by apply positive_value_spec. }
  split_and!.
  - done.
  - rewrite sorted_perm. apply filter_keys_NoDup.
    by rewrite (means_keys _ _ Hmeans).
  - apply sorted_strings_ascending.
  - done.
  - intros month cs value Hget Hzero (cs' & v' & Hget' & Hne & Hm & Hpos)%Hsurv.
    assert (cs' = cs) as -> by congruence.
    destruct Hzero as [->|[Hm' Hz]]; [done|].
    assert (v' = value) as -> by congruence.
    rewrite Hz in Hpos. by apply Qlt_irrefl in Hpos.
  - intros month Hget (cs' & v' & Hget' & _)%Hsurv. congruence.
  - apply rmapM_Ok_Forall2 in Hys. eapply Forall2_impl; [exact Hys|].
    intros month n Hitem. unfold dict_item in Hitem.
    destruct (Dict.get month _) as [n'|] eqn:Hget; [|done].
    injection Hitem as ->.
    apply get_Some_elem, list_elem_of_omap in Hget as (month' & _ & Hget).
    destruct (Dict.get month' draw_invitations_per_month) eqn:E;
      simpl in Hget; [|done].
    by injection Hget as -> ->.
  - apply rmapM_Ok_Forall2 in Hvs. eapply Forall2_impl; [exact Hvs|].
    intros month value Hitem. unfold dict_item in Hitem.
    destruct (Dict.get month valid) as [v|] eqn:Hget; [|done].
    injection Hitem as ->.
    apply get_Some_elem, Hvalid in Hget as [_ ?]. done.
Qed.

Lemma draw_size_months_survive_witness :
  Series.x monthly_output.1 = Series.x monthly_output.2
  ∧ NoDup (Series.x monthly_output.1)
  ∧ ascending (Series.x monthly_output.1)
  ∧ "2024-02" ∉ Series.x monthly_output.1.
Proof.
  destruct (draw_size_months_survive monthly_rounds monthly_invitations
              monthly_candidates [RoundWarning (KeyError "dd18")]
              [RoundWarning (KeyError "dd18")]
              monthly_output.1 monthly_output.2)
    as (H1 & H2 & H3 & _ & H5 & _).
  - vm_compute. reflexivity.
  - vm_compute. reflexivity.
  - split_and!; [exact H1 | exact H2 | exact H3 |].
    apply (H5 "2024-02" [0] (0 # 1)%Q); [reflexivity|].
    right. split; reflexivity.
Defined.

(** C7. End to end: the two "General (X)" rounds, given latest first to a
    processor built with batch size 1, give a score-trend collection with
    the single key "General", whose dates are ["2024-01-01"; "2024-02-01"]
    and whose scores are [600; 500]. *)
Theorem general_end_to_end :
  rbind (__init__ true (Some 1))
        (λ self, _process_crs_trends self general_rounds)
  = Ok ([("General",
          Series.mk ["2024-01-01"; "2024-02-01"] [600; 500]
                    "scatter" "lines+markers" "General")],
        []).
Proof. vm_compute. reflexivity. Qed.

(** C8. The keys of the score-trend collection and of the pool-trend
    collection are distinct and in ascending lexicographic order. *)
Theorem output_keys_unique_and_sorted
    (self : ImmigrationDataProcessor) (rounds : list Round)
    (out : Collection) (w : list warning) :
  _process_crs_trends self rounds = Ok (out, w)
  ∨ _process_pool_trends self rounds = Ok (out, w) →
  NoDup (Dict.keys out) ∧ ascending (Dict.keys out).
Proof.
  unfold _process_crs_trends, _process_pool_trends.
  intros [H|H]; apply finish_keys in H as (acc & w0 & Hacc & ->);
    apply process_in_batches_NoDup in Hacc;
    (split; [by rewrite sorted_perm | apply sorted_strings_ascending]).
Qed.

Lemma output_keys_unique_and_sorted_witness :
  NoDup ["General"] ∧ ascending ["General"].
Proof.
  apply (output_keys_unique_and_sorted (mk_processor 1) general_rounds
           [("General",
             Series.mk ["2024-01-01"; "2024-02-01"] [600; 500]
                       "scatter" "lines+markers" "General")] []).
  left. vm_compute. reflexivity.
Defined.



(** C10. Built with batch size 0 the processor uses the default 8; built
    with a negative batch size it is built all the same, and on a non-empty
    list of rounds the score and the pool transform both return the empty
    collection, the batch loop having no batch to run. *)
Theorem zero_and_negative_batch_size (n : Z) (rounds : list Round) :
  n < 0 → rounds ≠ [] →
  __init__ true (Some 0) = Ok (mk_processor 8)
  ∧ ∃ self, __init__ true (Some n) = Ok self
      ∧ _process_crs_trends self rounds = Ok ([], [])
      ∧ _process_pool_trends self rounds = Ok ([], []).
Proof.
  intros Hn _. split; [reflexivity|].
  exists (mk_processor n). unfold __init__.
  destruct (Z.eqb_spec n 0); [lia|]. split; [reflexivity|].
  unfold _process_crs_trends, _process_pool_trends; cbn [batch_size].
  by rewrite !process_in_batches_negative by done.
Qed.

Lemma zero_and_negative_batch_size_witness :
  __init__ true (Some 0) = Ok (mk_processor 8)
  ∧ ∃ self, __init__ true (Some (-1)) = Ok self
      ∧ _process_crs_trends self general_rounds = Ok ([], [])
      ∧ _process_pool_trends self general_rounds = Ok ([], []).
Proof.
  apply (zero_and_negative_batch_size (-1) general_rounds); [lia | done].
Defined.

(** * Further properties *)

(** ** More on the sorter *)

Lemma rmapM_Raise {A B} (f : A → result B) (l : list A) e :
  rmapM f l = Raise e → ∃ a, a ∈ l ∧ f a = Raise e.
Proof.
  induction l as [|a l IH]; simpl; [done|].
  destruct (f a) as [b|e'] eqn:Hfa; simpl.
  - destruct (rmapM f l) as [bs|e'']; simpl; [done|].
    intros [= ->]. destruct IH as (a' & Hin & Ha'); [done|].
    exists a'. split; [by right | done].
  - intros [= ->]. exists a. split; [by left | done].
Qed.

Lemma rmapM_all_Ok {A B} (f : A → result B) (l : list A) :
  (∀ a, a ∈ l → ∃ b, f a = Ok b) → ∃ bs, rmapM f l = Ok bs.
Proof.
  induction l as [|a l IH]; intros Hl; simpl; [by eexists|].
  destruct (Hl a ltac:(left)) as [b ->]. simpl.
  destruct IH as [bs ->]; [|by eexists].
  intros a' Ha'. apply Hl. by right.
Qed.

Lemma rmapM_getindex_zip {A B} (l : list A) (k : list B) idx l' k' :
  rmapM (getindex l) idx = Ok l' → rmapM (getindex k) idx = Ok k' →
  Some <$> zip l' k' = (λ i, zip l k !! i) <$> idx.
Proof.
  revert l' k'. induction idx as [|i idx IH]; intros l' k'; simpl.
  - by intros [= <-] [= <-].
  - intros Hl Hk.
    apply rbind_Ok in Hl as (a & Ha%getindex_Ok & Hl).
    apply rbind_Ok in Hl as (l'' & Hl'' & [= <-]).
    apply rbind_Ok in Hk as (b & Hb%getindex_Ok & Hk).
    apply rbind_Ok in Hk as (k'' & Hk'' & [= <-]).
    simpl. f_equal; [|by apply IH].
    symmetry. apply lookup_zip_with_Some. eauto.
Qed.

Lemma lookup_fmap_seq {A} (l : list A) :
  (λ i, l !! i) <$> seq 0 (length l) = Some <$> l.
Proof.
  apply list_eq. intros i. rewrite !list_lookup_fmap.
  destruct (decide (i < length l)%nat) as [Hlt|Hge].
  - rewrite lookup_seq_lt by done. simpl.
    by destruct (lookup_lt_is_Some_2 l i Hlt) as [a ->].
  - rewrite (lookup_ge_None_2 (seq 0 (length l))) by (rewrite length_seq; lia).
    by rewrite (lookup_ge_None_2 l) by lia.
Qed.

Lemma omap_id_Some {A} (l : list A) : omap id (Some <$> l) = l.
Proof. induction l as [|a l IH]; csimpl; [done | by f_equal]. Qed.

Lemma Some_fmap_Permutation {A} (l k : list A) :
  Some <$> l ≡ₚ Some <$> k → l ≡ₚ k.
Proof.
  intros H. pose proof (omap_Permutation id _ _ H) as H'.
  by rewrite !omap_id_Some in H'.
Qed.

Lemma sorted_indices_perm dates n :
  length dates = n →
  (Py.sorted Py.datetime_ltb fst (zip dates (seq 0 n))).*2 ≡ₚ seq 0 n.
Proof.
  intros Hlen. rewrite sorted_perm. rewrite snd_zip; [done|].
  rewrite length_seq. lia.
Qed.

Lemma mapM_strptime_length xs dates :
  mapM Py.strptime xs = Some dates → length dates = length xs.
Proof. intros H%mapM_Some. symmetry. by eapply Forall2_length. Qed.

Lemma sorted_fixed {A K} (ltb : K → K → bool) (key : A → K) (l : list A) :
  Sorted (Py.not_after ltb key) l → Py.sorted ltb key l = l.
Proof.
  induction l as [|a l IH]; [done|].
  intros [Hs Hhd]%Sorted_inv. simpl.
  change (foldr (Py.insert_stable ltb key) [] l) with (Py.sorted ltb key l).
  rewrite IH by done. destruct Hhd as [|b l' Hab]; [done|].
  simpl. unfold Py.not_after in Hab. by rewrite Hab.
Qed.

Lemma Sorted_zip_fst {A B} (R : A → A → Prop) (l : list A) (k : list B) :
  Sorted R l → Sorted (λ a b, R a.1 b.1) (zip l k).
Proof.
  intros Hs. revert k. induction Hs as [|a l Hs IH Hhd]; intros k.
  - constructor.
  - destruct k as [|b k]; [constructor|]. simpl. constructor; [apply IH|].
    destruct Hhd as [|a' l' Ha]; [constructor|].
    destruct k as [|b' k']; constructor. done.
Qed.

Lemma rmapM_getindex_seq {A} (l : list A) j n :
  (j + n ≤ length l)%nat →
  rmapM (getindex l) (seq j n) = Ok (take n (drop j l)).
Proof.
  revert j. induction n as [|n IH]; intros j Hn; simpl.
  - by rewrite take_0.
  - destruct (lookup_lt_is_Some_2 l j ltac:(lia)) as [a Ha].
    unfold getindex at 1. rewrite Ha. simpl.
    rewrite IH by lia. simpl.
    by rewrite (drop_S l a j Ha).
Qed.

(** A series already in calendar order is returned as it is. *)
Lemma sort_series_chronological key s :
  chronological s → sort_series key s = Ok (s, []).
Proof.
  intros (Hlen & dates & Hdates & Hsorted). unfold sort_series.
  rewrite Hdates.
  pose proof (mapM_strptime_length _ _ Hdates) as Hn.
  rewrite sorted_fixed.
  2:{ apply (Sorted_zip_fst (λ a b, Py.datetime_ltb b a = false)).
      exact Hsorted. }
  rewrite snd_zip by (rewrite length_seq; lia).
  rewrite (rmapM_getindex_seq (Series.x s)) by lia.
  rewrite (rmapM_getindex_seq (Series.y s)) by lia.
  simpl. rewrite !drop_0, Hlen at 1. rewrite !take_ge by lia.
  by destruct s.
Qed.

Lemma sort_series_pairs key s s' w :
  sort_series key s = Ok (s', w) →
  zip (Series.x s') (Series.y s') ≡ₚ zip (Series.x s) (Series.y s)
  ∧ Series.type s' = Series.type s ∧ Series.mode s' = Series.mode s
  ∧ Series.name s' = Series.name s.
Proof.
  unfold sort_series.
  destruct (mapM Py.strptime (Series.x s)) as [dates|] eqn:Hdates.
  2:{ by intros [= <- <-]. }
  intros H.
  pose proof (mapM_strptime_length _ _ Hdates) as Hn.
  pose proof (sorted_indices_perm dates _ Hn) as Hperm.
  set (idx := (Py.sorted Py.datetime_ltb fst
                 (zip dates (seq 0 (length (Series.x s))))).*2) in *.
  apply rbind_Ok in H as (x' & Hx' & H).
  apply rbind_Ok in H as (y' & Hy' & [= <- <-]). simpl.
  split; [|done].
  apply Some_fmap_Permutation.
  rewrite (rmapM_getindex_zip _ _ _ _ _ Hx' Hy'), Hperm.
  assert (length (zip (Series.x s) (Series.y s)) = length (Series.x s))
    as Hzip.
  { rewrite length_zip_with. apply Nat.min_l.
    destruct (decide (length (Series.x s) ≤ length (Series.y s))%nat)
      as [|Hgt]; [done|]. exfalso.
    assert ((length (Series.x s) - 1)%nat ∈ idx) as Hin.
    { rewrite Hperm. apply elem_of_seq. lia. }
    apply list_elem_of_lookup in Hin as (j & Hj).
    destruct (rmapM_Ok_lookup _ _ _ Hy' _ _ Hj) as (b & _ & Hb).
    apply getindex_Ok, lookup_lt_Some in Hb. lia. }
  rewrite <- Hzip. by rewrite lookup_fmap_seq.
Qed.

Lemma sort_series_Raise key s e :
  sort_series key s = Raise e
  ↔ e = IndexError ∧ ¬ date_parse_failure s
    ∧ (length (Series.y s) < length (Series.x s))%nat.
Proof.
  unfold sort_series, date_parse_failure.
  destruct (mapM Py.strptime (Series.x s)) as [dates|] eqn:Hdates.
  2:{ split; [done | by intros (_ & ? & _)]. }
  pose proof (mapM_strptime_length _ _ Hdates) as Hn.
  pose proof (sorted_indices_perm dates _ Hn) as Hperm.
  set (idx := (Py.sorted Py.datetime_ltb fst
                 (zip dates (seq 0 (length (Series.x s))))).*2) in *.
  assert (Hidx : ∀ i, i ∈ idx ↔ (i < length (Series.x s))%nat).
  { intros i. rewrite Hperm, elem_of_seq. lia. }
  destruct (rmapM_all_Ok (getindex (Series.x s)) idx) as [x' ->].
  { intros i Hi%Hidx. destruct (lookup_lt_is_Some_2 _ _ Hi) as [a Ha].
    exists a. by apply getindex_Ok. }
  simpl. destruct (rmapM (getindex (Series.y s)) idx) as [y'|e'] eqn:Hy; simpl.
  - split; [done|]. intros (_ & _ & Hlt). exfalso.
    assert ((length (Series.x s) - 1)%nat ∈ idx) as Hin by (apply Hidx; lia).
    apply list_elem_of_lookup in Hin as (j & Hj).
    destruct (rmapM_Ok_lookup _ _ _ Hy _ _ Hj) as (b & _ & Hb).
    apply getindex_Ok, lookup_lt_Some in Hb. lia.
  - apply rmapM_Raise in Hy as (i & Hi%Hidx & Hget).
    unfold getindex in Hget.
    destruct (Series.y s !! i) eqn:Hyi; [done|]. injection Hget as <-.
    apply lookup_ge_None in Hyi. split.
    + intros [= <-]. split_and!; [done | done | lia].
    + by intros (-> & _).
Qed.

(** X1. The sorter keeps each date with its value: when it returns, every
    series has the same key as before, at the same place in the collection,
    the same display fields, and the same pairs of date and value, in some
    order. *)
Theorem sorter_keeps_pairs (data data' : Collection) (w : list warning) :
  _sort_data_by_date data = Ok (data', w) →
  Forall2 (λ item item',
             item'.1 = item.1
             ∧ zip (Series.x item'.2) (Series.y item'.2)
               ≡ₚ zip (Series.x item.2) (Series.y item.2)
             ∧ Series.type item'.2 = Series.type item.2
             ∧ Series.mode item'.2 = Series.mode item.2
             ∧ Series.name item'.2 = Series.name item.2)
          data data'.
Proof.
  revert data' w. induction data as [|[k s] data IH]; intros data' w; simpl.
  - intros [= <- <-]. constructor.
  - intros H. apply rbind_Ok in H as ([s' w1] & Hs & H).
    apply rbind_Ok in H as ([data'' w2] & Hd & [= <- <-]).
    constructor; [|by eapply IH].
    simpl. split; [done|]. by eapply sort_series_pairs.
Qed.

Lemma sorter_keeps_pairs_witness :
  Forall2 (λ item item' : string * Series.t Z,
             item'.1 = item.1
             ∧ zip (Series.x item'.2) (Series.y item'.2)
               ≡ₚ zip (Series.x item.2) (Series.y item.2)
             ∧ Series.type item'.2 = Series.type item.2
             ∧ Series.mode item'.2 = Series.mode item.2
             ∧ Series.name item'.2 = Series.name item.2)
    [("A", Series.mk ["2024-02-01"; "2024-01-01"] [500; 600] "scatter"
             "lines+markers" "A")]
    [("A", Series.mk ["2024-01-01"; "2024-02-01"] [600; 500] "scatter"
             "lines+markers" "A")].
Proof. apply (sorter_keeps_pairs _ _ []). reflexivity. Defined.

(** X2. Sorting is idempotent: the sorter applied to what it returned
    returns it unchanged; the warnings, one for each series with a date that
    does not parse, are those of the first run. *)
Theorem sorter_idempotent (data data' : Collection) (w : list warning) :
  _sort_data_by_date data = Ok (data', w) →
  _sort_data_by_date data' = Ok (data', w).
Proof.
  revert data' w. induction data as [|[k s] data IH]; intros data' w; simpl.
  - by intros [= <- <-].
  - intros H. apply rbind_Ok in H as ([s' w1] & Hs & H).
    apply rbind_Ok in H as ([data'' w2] & Hd & [= <- <-]).
    simpl. rewrite (IH _ _ Hd).
    assert (sort_series k s' = Ok (s', w1)) as ->; [|done].
    destruct (sort_series_Ok _ _ _ _ Hs) as [(_ & -> & _)|[Hc ->]];
      [done | by apply sort_series_chronological].
Qed.

Lemma sorter_idempotent_witness :
  _sort_data_by_date
    [("A", Series.mk ["2024-01-01"; "2024-02-01"] [600; 500] "scatter"
             "lines+markers" "A");
     ("B", Series.mk ["soon"; "2024-02-01"] [1; 2] "scatter"
             "lines+markers" "B")]
  = Ok ([("A", Series.mk ["2024-01-01"; "2024-02-01"] [600; 500] "scatter"
                 "lines+markers" "A");
         ("B", Series.mk ["soon"; "2024-02-01"] [1; 2] "scatter"
                 "lines+markers" "B")],
        [DateWarning "B"]).
Proof.
  apply (sorter_idempotent
           [("A", Series.mk ["2024-02-01"; "2024-01-01"] [500; 600] "scatter"
                    "lines+markers" "A");
            ("B", Series.mk ["soon"; "2024-02-01"] [1; 2] "scatter"
                    "lines+markers" "B")]).
  reflexivity.
Defined.


(** ** The draw name and the numbers *)

Lemma greedy_no_qualifier s : has_qualifier s = false → greedy s = None.
Proof.
  induction s as [|c s IH]; [done|].
  cbn [has_qualifier greedy]. intros [Hl Hq]%orb_false_elim.
  rewrite (IH Hq), Hl. by destruct (Ascii.eqb c "010").
Qed.

Lemma re_search_no_qualifier s : has_qualifier s = false → re_search s = None.
Proof.
  induction s as [|c s IH]; [done|].
  intros Hq. cbn [re_search]. rewrite greedy_no_qualifier by done.
  cbn [has_qualifier] in Hq. apply orb_false_elim in Hq as [_ Hq]. auto.
Qed.

Lemma greedy_one_line s :
  one_line s = true → has_qualifier s = true →
  ∃ m rest, greedy s = Some m ∧ s = m +:+ rest ∧ lookahead rest = true
            ∧ has_qualifier (match rest with
                             | EmptyString => EmptyString
                             | String _ rest' => rest'
                             end) = false.
Proof.
  induction s as [|c s IH]; [done|].
  cbn [one_line has_qualifier greedy].
  intros [Hc Hs]%andb_prop Hq. apply negb_true_iff in Hc. rewrite Hc.
  destruct (has_qualifier s) eqn:Hqs.
  - destruct (IH Hs eq_refl) as (m & rest & -> & -> & Hl & Hrest).
    exists (String c m), rest. done.
  - rewrite greedy_no_qualifier by done.
    rewrite orb_false_r in Hq. rewrite Hq.
    exists EmptyString, (String c s). done.
Qed.

(** X4. An ASCII draw name in which no white-space character is followed
    by an opening parenthesis is returned unchanged. *)
Theorem extract_without_qualifier (draw_name : string) :
  Py.isascii draw_name = true →
  has_qualifier draw_name = false → _extract_draw_name draw_name = draw_name.
Proof.
  intros _ H. unfold _extract_draw_name. by rewrite re_search_no_qualifier.
Qed.

Lemma extract_without_qualifier_witness :
  _extract_draw_name "Canadian Experience Class"
  = "Canadian Experience Class".
Proof. apply extract_without_qualifier; reflexivity. Defined.

(** X5. An ASCII draw name of one line with a qualifier is cut at the last
    place where a white-space character is followed by an opening
    parenthesis: the result is the text before that white space, so an
    earlier parenthesis stays in the name. *)
Theorem extract_cuts_at_last_qualifier (draw_name : string) :
  Py.isascii draw_name = true →
  one_line draw_name = true → has_qualifier draw_name = true →
  ∃ c rest,
    draw_name = _extract_draw_name draw_name +:+ String c (String "(" rest)
    ∧ Py.is_space c = true
    ∧ has_qualifier (String "(" rest) = false.
Proof.
  intros _ Hone Hq.
  destruct (greedy_one_line _ Hone Hq) as (m & rest & Hg & Hs & Hl & Hrest).
  unfold _extract_draw_name.
  assert (re_search draw_name = Some m) as ->.
  { destruct draw_name; cbn [re_search]; by rewrite Hg. }
  destruct rest as [|c [|p rest]]; try done.
  simpl in Hl. destruct (Ascii.eqb_spec p "("%char) as [->|Hne].
  - exists c, rest. done.
  - exfalso. revert Hl Hne. clear.
    destruct p as [[] [] [] [] [] [] [] []]; simpl; done.
Qed.

Lemma extract_cuts_at_last_qualifier_witness :
  ∃ c rest,
    "Trade (Cat. 1) (Version 2)"
    = _extract_draw_name "Trade (Cat. 1) (Version 2)"
      +:+ String c (String "(" rest)
    ∧ Py.is_space c = true
    ∧ has_qualifier (String "(" rest) = false.
Proof. apply extract_cuts_at_last_qualifier; reflexivity. Defined.

Lemma remove_char_app old s1 s2 :
  Py.remove_char old (s1 +:+ s2)
  = Py.remove_char old s1 +:+ Py.remove_char old s2.
Proof.
  induction s1 as [|c s1 IH]; simpl; [done|].
  destruct (Ascii.eqb c old); simpl; by rewrite IH.
Qed.

(** X6. Commas are ignored wherever they stand: a text with a comma put in
    at any place parses to the same number, or fails in the same way, as the
    text without it. *)
Theorem parse_ignores_commas (before after : string) :
  _parse_numeric_value (before +:+ "," +:+ after)
  = _parse_numeric_value (before +:+ after).
Proof.
  unfold _parse_numeric_value. by rewrite !remove_char_app.
Qed.

Lemma int_digits_all acc after digits :
  Forall (λ c, Py.is_digit c = true) digits →
  (digits ≠ [] ∨ after = true) →
  Py.int_digits acc after digits
  = Some (fold_left (λ acc c, 10 * acc + Py.digit_val c) digits acc).
Proof.
  intros Hd. revert acc after.
  induction Hd as [|c digits Hc Hd IH]; intros acc after Hne; simpl.
  - destruct Hne as [? | ->]; done.
  - rewrite Hc. apply IH. by right.
Qed.

Lemma digit_not_space c : Py.is_digit c = true → Py.is_int_space c = false.
Proof. destruct c as [[] [] [] [] [] [] [] []]; by vm_compute. Qed.

Lemma lstrip_digit c l : Py.is_digit c = true → Py.lstrip (c :: l) = c :: l.
Proof. intros H. simpl. by rewrite digit_not_space. Qed.

Lemma strip_digits digits :
  Forall (λ c, Py.is_digit c = true) digits → Py.strip digits = digits.
Proof.
  intros Hd. unfold Py.strip.
  destruct digits as [|c digits]; [done|].
  rewrite lstrip_digit by (by apply Forall_cons in Hd as [? _]).
  assert (Forall (λ c, Py.is_digit c = true) (rev (c :: digits))) as Hr.
  { by apply Forall_rev. }
  destruct (rev (c :: digits)) as [|c' l'] eqn:Hrev.
  - apply (f_equal (@length _)) in Hrev. rewrite length_rev in Hrev. done.
  - rewrite lstrip_digit by (by apply Forall_cons in Hr as [? _]).
    rewrite <- Hrev. apply rev_involutive.
Qed.

Lemma filter_digits digits :
  Forall (λ c, Py.is_digit c = true) digits →
  List.filter Py.is_digit digits = digits.
Proof.
  induction 1 as [|c digits Hc Hd IH]; [done|].
  cbn [List.filter]. by rewrite Hc, IH.
Qed.

Lemma int_of_digits digits :
  digits ≠ [] → Forall (λ c, Py.is_digit c = true) digits →
  Py.int (string_of_list_ascii digits)
  = if Z.of_nat (length digits) <=? Py.MAX_STR_DIGITS
    then Some (decimal digits) else None.
Proof.
  intros Hne Hd. unfold Py.int.
  rewrite list_ascii_of_string_of_list_ascii, strip_digits by done.
  destruct digits as [|c digits]; [done|].
  assert (Py.is_digit c = true) as Hc by (by apply Forall_cons in Hd as [? _]).
  transitivity (Py.int_unsigned (c :: digits)).
  - revert Hc. clear.
    destruct c as [[] [] [] [] [] [] [] []]; try done; by vm_compute.
  - unfold Py.int_unsigned.
    rewrite int_digits_all; [|done | by left].
    by rewrite filter_digits.
Qed.

Lemma list_of_remove_char old s :
  list_ascii_of_string (Py.remove_char old s)
  = filter (λ c, c ≠ old) (list_ascii_of_string s).
Proof.
  induction s as [|c s IH]; [done|]. simpl.
  rewrite filter_cons. destruct (Ascii.eqb_spec c old) as [->|Hne].
  - by rewrite decide_False by (intros H; by apply H).
  - rewrite decide_True by done. simpl. by rewrite IH.
Qed.

(** X7. A text made of decimal digits and commas, with at least one digit,
    parses to the number its digits write, the commas being dropped wherever
    they stand, as long as it has no more digits than [int] accepts; with
    more digits the parse raises [ValueError]. *)
Theorem parse_digits_and_commas (value : string) :
  Forall (λ c, Py.is_digit c = true ∨ c = ","%char)
         (list_ascii_of_string value) →
  Exists (λ c, Py.is_digit c = true) (list_ascii_of_string value) →
  let digits := filter (λ c, c ≠ ","%char) (list_ascii_of_string value) in
  _parse_numeric_value value
  = if Z.of_nat (length digits) <=? Py.MAX_STR_DIGITS
    then Ok (decimal digits) else Raise ValueError.
Proof.
  intros Hall Hsome digits. unfold _parse_numeric_value.
  rewrite <- (string_of_list_ascii_of_string (Py.remove_char "," value)).
  rewrite list_of_remove_char. fold digits.
  rewrite int_of_digits; [by destruct (_ <=? _) | |].
  - apply Exists_exists in Hsome as (c & Hin & Hc).
    intros Hnil.
    assert (c ∈ digits) as H.
    { apply list_elem_of_filter. split; [|done].
      intros ->. done. }
    rewrite Hnil in H. by apply elem_of_nil in H.
  - apply Forall_forall. intros c [Hne Hin]%list_elem_of_filter.
    rewrite Forall_forall in Hall.
    destruct (Hall c Hin) as [?|?]; done.
Qed.

Lemma parse_digits_and_commas_witness :
  _parse_numeric_value "12,345,678" = Ok 12345678.
Proof.
  apply (parse_digits_and_commas "12,345,678").
  - apply (bool_decide_unpack _). vm_compute. reflexivity.
  - apply Exists_cons_hd. reflexivity.
Defined.

(** ** More on the merge *)

Lemma filter_agree {A} (P Q : A → Prop) `{∀ a, Decision (P a)}
    `{∀ a, Decision (Q a)} (l : list A) :
  (∀ a, a ∈ l → P a ↔ Q a) → filter P l = filter Q l.
Proof.
  induction l as [|a l IH]; intros Hl; [done|].
  rewrite !filter_cons.
  rewrite IH by (intros a' Ha'; apply Hl; by right).
  pose proof (Hl a ltac:(left)) as Ha.
  destruct (decide (P a)), (decide (Q a)); tauto || done.
Qed.

Lemma get_merge_item (acc : Collection) k0 v0 k :
  Dict.get k (merge_item acc (k0, v0))
  = if String.eqb k0 k then merged_value (Dict.get k acc) (Some v0)
    else Dict.get k acc.
Proof.
  simpl. destruct (String.eqb_spec k0 k) as [->|Hne].
  - destruct (Dict.contains k acc) eqn:E.
    + rewrite get_alter_eq. unfold Dict.contains in E.
      by destruct (Dict.get k acc).
    + rewrite get_set_eq. apply contains_false, get_None in E. by rewrite E.
  - destruct (Dict.contains k0 acc).
    + by apply get_alter_ne.
    + by apply get_set_ne.
Qed.

(** X8. The merge of a batch: a key of the batch that the accumulated data
    has gets its dates and values appended to those accumulated, a new key
    is inserted with the series of the batch, and the other keys are left as
    they are; the old keys keep their order and the new keys follow in the
    order of the batch. *)
Theorem merge_batch_by_key (acc b : Collection) :
  NoDup (Dict.keys b) →
  (∀ k, Dict.get k (merge_batch acc b)
        = merged_value (Dict.get k acc) (Dict.get k b))
  ∧ Dict.keys (merge_batch acc b)
    = Dict.keys acc ++ filter (λ k, k ∉ Dict.keys acc) (Dict.keys b).
Proof.
  unfold merge_batch. revert acc.
  induction b as [|[k0 v0] b IH]; intros acc Hnd.
  - split; [|by rewrite app_nil_r].
    intros k. simpl. by destruct (Dict.get k acc).
  - change (Dict.keys ((k0, v0) :: b)) with (k0 :: Dict.keys b) in *.
    apply NoDup_cons in Hnd as [Hk0 Hnd].
    cbn [fold_left]. destruct (IH (merge_item acc (k0, v0)) Hnd) as [Hget Hkeys].
    split.
    + intros k. rewrite Hget, get_merge_item. cbn [Dict.get].
      destruct (String.eqb_spec k0 k) as [->|Hne]; [|done].
      apply get_None in Hk0. rewrite Hk0.
      by destruct (Dict.get k acc).
    + rewrite Hkeys, filter_cons. simpl.
      destruct (Dict.contains k0 acc) eqn:E.
      * rewrite keys_alter. apply contains_true in E.
        by rewrite decide_False by (intros H; by apply H).
      * apply contains_false in E. rewrite decide_True by done.
        rewrite set_new, keys_app by done. simpl.
        rewrite <- app_assoc. simpl. do 2 f_equal.
        apply filter_agree. intros k Hk.
        rewrite not_elem_of_app, list_elem_of_singleton.
        split; [by intros [? _]|]. intros Hn. split; [done|].
        intros ->. done.
Qed.

Lemma merge_batch_by_key_witness :
  Dict.keys (merge_batch
               [("B", Series.mk ["d1"] [1] "scatter" "lines+markers" "B")]
               [("A", Series.mk ["d2"] [2] "scatter" "lines+markers" "A");
                ("B", Series.mk ["d3"] [3] "scatter" "lines+markers" "B")])
  = ["B"; "A"].
Proof.
  refine (eq_trans (proj2 (merge_batch_by_key _ _ _)) _); [|reflexivity].
  apply (bool_decide_unpack _). vm_compute. reflexivity.
Defined.

(** X9. The batch size has no effect on the score and pool transforms as
    long as it is positive: any two positive batch sizes give the same
    result, which is that of one pass over all the rounds. *)
Theorem positive_batch_sizes_agree
    (rounds : list Round) (self other : ImmigrationDataProcessor) :
  0 < batch_size self → 0 < batch_size other →
  _process_crs_trends self rounds = _process_crs_trends other rounds
  ∧ _process_pool_trends self rounds = _process_pool_trends other rounds.
Proof.
  intros Hself Hother. unfold _process_crs_trends, _process_pool_trends.
  rewrite (process_in_batches_one_pass crs_round crs_round_mt _ rounds Hself).
  rewrite (process_in_batches_one_pass crs_round crs_round_mt _ rounds Hother).
  rewrite (process_in_batches_one_pass pool_round pool_round_mt _ rounds Hself).
  rewrite (process_in_batches_one_pass pool_round pool_round_mt _ rounds Hother).
  done.
Qed.

Lemma positive_batch_sizes_agree_witness :
  _process_crs_trends (mk_processor 3) malformed_score_rounds
  = _process_crs_trends (mk_processor 8) malformed_score_rounds
  ∧ _process_pool_trends (mk_processor 3) malformed_score_rounds
    = _process_pool_trends (mk_processor 8) malformed_score_rounds.
Proof. apply positive_batch_sizes_agree; reflexivity. Defined.

(** ** The score transform on well-formed rounds *)

Lemma crs_round_point round_data k d n (b : Collection) :
  score_point round_data = Some (k, (d, n)) →
  Try.except (crs_round round_data) b = (append_point k d n b, []).
Proof.
  unfold score_point, Try.except, crs_round, Try.bind, getitem, Try.ret,
    Try.raise, Try.modify, Try.lift.
  destruct (round_data !! "drawName") as [name|]; [|done].
  destruct (round_data !! "drawDate") as [date|]; [|done].
  destruct (round_data !! "drawCRS") as [crs|]; [|done].
  destruct (_parse_numeric_value crs) as [n'|]; [|done].
  by intros [= <- <- <-].
Qed.

Lemma crs_rounds_points rounds (b : Collection) :
  Forall (λ r, is_Some (score_point r)) rounds →
  Try.for_rounds crs_round rounds b
  = (append_points (omap score_point rounds) b, []).
Proof.
  intros Hall. revert b. induction Hall as [|r rounds [[k [d n]] Hr] _ IH];
    intros b; [done|].
  rewrite for_rounds_cons, (crs_round_point _ _ _ _ _ Hr). simpl.
  rewrite IH, Hr. done.
Qed.

Lemma points_with_cons {P} key k (p : P) points :
  points_with key ((k, p) :: points)
  = if String.eqb k key then p :: points_with key points
    else points_with key points.
Proof. unfold points_with. simpl. by destruct (String.eqb k key). Qed.

(** The series of a key after points are appended to what was there. *)
Lemma get_append_points key points (b : Collection) :
  Dict.get key (append_points points b)
  = match points_with key points with
    | [] => Dict.get key b
    | sel =>
        Some (Series.extend
                (Series.mk sel.*1 sel.*2 "scatter" "lines+markers"
                           (Py.title key))
                (default (Series.empty (Py.title key)) (Dict.get key b)))
    end.
Proof.
  unfold append_points. revert b.
  induction points as [|[k [d n]] points IH]; intros b; [done|].
  cbn [fold_left]. rewrite IH, get_append_point, points_with_cons.
  cbn [fst snd].
  destruct (String.eqb k key); [|done].
  destruct (points_with key points) as [|p sel].
  - done.
  - unfold Series.extend, Series.append_y, Series.append_x. simpl.
    by rewrite <- !app_assoc.
Qed.

Lemma sort_all_sortable (acc : Collection) :
  (∀ k s, (k, s) ∈ acc →
          ¬ date_parse_failure s
          ∧ length (Series.x s) = length (Series.y s)) →
  ∃ data, _sort_data_by_date acc = Ok (data, [])
          ∧ Forall2 (λ item item',
                       item'.1 = item.1
                       ∧ sort_series item.1 item.2 = Ok (item'.2, []))
                    acc data.
Proof.
  induction acc as [|[k s] acc IH]; intros Hall.
  - exists []. split; [done | constructor].
  - destruct (Hall k s ltac:(left)) as [Hp Hlen].
    destruct IH as (data & Hdata & Hrel).
    { intros k' s' Hin. apply (Hall k' s'). by right. }
    destruct (sort_series k s) as [[s' w]|e] eqn:Hs.
    + destruct (sort_series_parsed _ _ _ _ Hp Hs) as [_ ->].
      exists ((k, s') :: data). simpl. rewrite Hs, Hdata. simpl.
      split; [done|]. constructor; [done | done].
    + apply sort_series_Raise in Hs as (_ & _ & Hlt). lia.
Qed.

Lemma get_sorted_data (acc data : Collection) key :
  Forall2 (λ item item',
             item'.1 = item.1
             ∧ sort_series item.1 item.2 = Ok (item'.2, []))
          acc data →
  match Dict.get key data with
  | Some s' => ∃ s, Dict.get key acc = Some s
                    ∧ sort_series key s = Ok (s', [])
  | None => Dict.get key acc = None
  end.
Proof.
  induction 1 as [|[k s] [k' s'] acc data [Hk Hs] _ IH]; [done|].
  simpl in Hk, Hs. subst k'. simpl.
  destruct (String.eqb_spec k key) as [->|Hne]; [eauto | done].
Qed.

Lemma get_sort_by_key {V} (data : Dict.t V) key :
  NoDup (Dict.keys data) →
  Dict.get key (sort_by_key data) = Dict.get key data.
Proof.
  intros Hnd. destruct (Dict.get key data) as [v|] eqn:Hget.
  - apply elem_get_Some; [by apply sort_by_key_NoDup|].
    unfold sort_by_key. apply list_elem_of_omap. exists key. split.
    + rewrite sorted_perm. apply elem_keys. exists v. by apply get_Some_elem.
    + by rewrite Hget.
  - apply get_None. rewrite keys_sort_by_key, sorted_perm. by apply get_None.
Qed.

Lemma points_with_fst {P} key (points : list (string * P)) p :
  p ∈ points_with key points → (key, p) ∈ points.
Proof.
  unfold points_with. rewrite list_elem_of_omap.
  intros ([k p'] & Hin & H). simpl in H.
  destruct (String.eqb_spec k key) as [->|]; [|done]. by injection H as ->.
Qed.

(** X10. On rounds of ASCII text that all have a name, a date that parses
    and a numeric score, the score transform returns for every positive
    batch size, with nothing logged; the keys of its result are the
    extracted names of the rounds, and the series of a key holds exactly the
    dates and scores of the rounds of that name, each date with its score,
    in calendar order, under the display name made from the key. *)
Theorem crs_trends_group_by_name
    (self : ImmigrationDataProcessor) (rounds : list Round) :
  0 < batch_size self →
  Forall ascii_round rounds →
  Forall (λ r, ∃ k d n, score_point r = Some (k, (d, n))
                        ∧ is_Some (Py.strptime d)) rounds →
  ∃ out, _process_crs_trends self rounds = Ok (out, [])
    ∧ ∀ key,
        match Dict.get key out with
        | Some s =>
            points_of key rounds ≠ []
            ∧ zip (Series.x s) (Series.y s) ≡ₚ points_of key rounds
            ∧ chronological s
            ∧ Series.type s = "scatter"
            ∧ Series.mode s = "lines+markers"
            ∧ Series.name s = Py.title key
        | None => points_of key rounds = []
        end.
Proof.
  intros Hpos _ Hall.
  assert (Forall (λ r, is_Some (score_point r)) rounds) as Hsome.
  { eapply Forall_impl; [exact Hall|]. intros r (k & d & n & -> & _). eauto. }
  pose proof (process_in_batches_one_pass crs_round crs_round_mt _ rounds Hpos)
    as Hacc.
  rewrite crs_rounds_points in Hacc by done.
  set (acc := append_points (omap score_point rounds) []) in *.
  pose proof (process_in_batches_NoDup _ _ _ _ _ Hacc) as Hnd.
  assert (Hget : ∀ key, Dict.get key acc
            = match points_of key rounds with
              | [] => None
              | sel => Some (Series.mk sel.*1 sel.*2 "scatter" "lines+markers"
                               (Py.title key))
              end).
  { intros key. subst acc. rewrite get_append_points.
    unfold points_of. by destruct (points_with key _). }
  assert (Hdates : ∀ key p, p ∈ points_of key rounds →
                            is_Some (Py.strptime p.1)).
  { intros key [d n] Hin%points_with_fst.
    apply list_elem_of_omap in Hin as (r & Hr & Hp).
    rewrite Forall_forall in Hall.
    destruct (Hall r Hr) as (k' & d' & n' & Hp' & Hd).
    rewrite Hp in Hp'. by injection Hp' as <- <- <-. }
  destruct (sort_all_sortable acc) as (data & Hsort & Hrel).
  { intros k s Hin. apply (elem_get_Some _ _ _ Hnd) in Hin.
    rewrite Hget in Hin.
    destruct (points_of k rounds) as [|p sel] eqn:Hsel; [done|].
    injection Hin as <-. cbn [Series.x Series.y].
    split.
    2:{ change (length (p :: sel).*1 = length (p :: sel).*2).
        by rewrite !length_fmap. }
    unfold date_parse_failure. cbn [Series.x]. intros Hfail.
    change (mapM Py.strptime (p :: sel).*1 = None) in Hfail.
    apply mapM_None, Exists_exists in Hfail as (d & Hin & Hd).
    apply list_elem_of_fmap in Hin as (p' & -> & Hin).
    rewrite <- Hsel in Hin. apply Hdates in Hin as [? Hsome'].
    congruence. }
  exists (sort_by_key data). split.
  { unfold _process_crs_trends, finish. rewrite Hacc. simpl.
    rewrite Hsort. done. }
  intros key.
  assert (NoDup (Dict.keys data)) as Hnd'.
  { by rewrite (sort_data_keys _ _ _ Hsort). }
  rewrite get_sort_by_key by done.
  pose proof (get_sorted_data _ _ key Hrel) as Hkey.
  destruct (Dict.get key data) as [s'|].
  - destruct Hkey as (s & Hs & Hss). rewrite Hget in Hs.
    destruct (points_of key rounds) as [|p sel] eqn:Hsel; [done|].
    injection Hs as <-.
    destruct (sort_series_pairs _ _ _ _ Hss) as (Hperm & Ht & Hm & Hn).
    simpl in Hperm, Ht, Hm, Hn. rewrite zip_fst_snd in Hperm.
    split_and!; try done.
    + by destruct p.
    + destruct (sort_series_Ok _ _ _ _ Hss) as [(_ & _ & ?)|[? _]]; done.
  - rewrite Hget in Hkey. by destruct (points_of key rounds).
Qed.

Lemma crs_trends_group_by_name_witness :
  ∃ out, _process_crs_trends (mk_processor 1) general_rounds = Ok (out, [])
    ∧ ∀ key,
        match Dict.get key out with
        | Some s =>
            points_of key general_rounds ≠ []
            ∧ zip (Series.x s) (Series.y s) ≡ₚ points_of key general_rounds
            ∧ chronological s
            ∧ Series.type s = "scatter"
            ∧ Series.mode s = "lines+markers"
            ∧ Series.name s = Py.title key
        | None => points_of key general_rounds = []
        end.
Proof.
  apply crs_trends_group_by_name; [reflexivity | |].
  - apply (bool_decide_unpack _). vm_compute. reflexivity.
  - repeat constructor; eexists _, _, _;
      (split; [vm_compute; reflexivity | vm_compute; eauto]).
Defined.

(** ** The pool transform on well-formed rounds *)

Lemma append_points_app pts1 pts2 (b : Collection) :
  append_points (pts1 ++ pts2) b = append_points pts2 (append_points pts1 b).
Proof. apply fold_left_app. Qed.

Lemma append_point_NoDup k d n (b : Collection) :
  NoDup (Dict.keys b) → NoDup (Dict.keys (append_point k d n b)).
Proof.
  intros Hnd. unfold append_point. rewrite !keys_alter.
  by apply ensure_series_NoDup.
Qed.

Lemma append_points_NoDup pts (b : Collection) :
  NoDup (Dict.keys b) → NoDup (Dict.keys (append_points pts b)).
Proof.
  unfold append_points. revert b.
  induction pts as [|[k [d n]] pts IH]; intros b Hnd; [done|].
  cbn [fold_left]. by apply IH, append_point_NoDup.
Qed.

(** What [finish] makes of data built by appending points whose dates all
    parse: every key has its points, each date with its number, in calendar
    order. *)
Lemma finish_append_points (pts : list (string * (string * Z))) w :
  (∀ k d n, (k, (d, n)) ∈ pts → is_Some (Py.strptime d)) →
  ∃ out, finish (Ok (append_points pts [], w)) = Ok (out, w)
    ∧ ∀ key,
        match Dict.get key out with
        | Some s =>
            points_with key pts ≠ []
            ∧ zip (Series.x s) (Series.y s) ≡ₚ points_with key pts
            ∧ chronological s
            ∧ Series.type s = "scatter"
            ∧ Series.mode s = "lines+markers"
            ∧ Series.name s = Py.title key
        | None => points_with key pts = []
        end.
Proof.
  intros Hdates.
  set (acc := append_points pts []).
  assert (NoDup (Dict.keys acc)) as Hnd
    by (apply append_points_NoDup, NoDup_nil_2).
  assert (Hget : ∀ key, Dict.get key acc
            = match points_with key pts with
              | [] => None
              | sel => Some (Series.mk sel.*1 sel.*2 "scatter" "lines+markers"
                               (Py.title key))
              end).
  { intros key. subst acc. rewrite get_append_points.
    by destruct (points_with key pts). }
  destruct (sort_all_sortable acc) as (data & Hsort & Hrel).
  { intros k s Hin. apply (elem_get_Some _ _ _ Hnd) in Hin.
    rewrite Hget in Hin.
    destruct (points_with k pts) as [|p sel] eqn:Hsel; [done|].
    injection Hin as <-. split.
    2:{ change (length (p :: sel).*1 = length (p :: sel).*2).
        by rewrite !length_fmap. }
    unfold date_parse_failure. cbn [Series.x]. intros Hfail.
    change (mapM Py.strptime (p :: sel).*1 = None) in Hfail.
    apply mapM_None, Exists_exists in Hfail as (d & Hin & Hd).
    apply list_elem_of_fmap in Hin as ([d' n'] & -> & Hin).
    rewrite <- Hsel in Hin. apply points_with_fst, Hdates in Hin as [? Hs].
    simpl in Hd. congruence. }
  exists (sort_by_key data). split.
  { unfold finish. simpl. fold acc. rewrite Hsort. simpl.
    by rewrite app_nil_r. }
  intros key.
  assert (NoDup (Dict.keys data)) as Hnd'.
  { by rewrite (sort_data_keys _ _ _ Hsort). }
  rewrite get_sort_by_key by done.
  pose proof (get_sorted_data _ _ key Hrel) as Hkey.
  destruct (Dict.get key data) as [s'|].
  - destruct Hkey as (s & Hs & Hss). rewrite Hget in Hs.
    destruct (points_with key pts) as [|p sel] eqn:Hsel; [done|].
    injection Hs as <-.
    destruct (sort_series_pairs _ _ _ _ Hss) as (Hperm & Ht & Hm & Hn).
    simpl in Hperm, Ht, Hm, Hn. rewrite zip_fst_snd in Hperm.
    split_and!; try done.
    + by destruct p.
    + destruct (sort_series_Ok _ _ _ _ Hss) as [(_ & _ & ?)|[? _]]; done.
  - rewrite Hget in Hkey. by destruct (points_with key pts).
Qed.

Lemma elem_concat {A} (a : A) (ls : list (list A)) :
  a ∈ concat ls → ∃ l, a ∈ l ∧ l ∈ ls.
Proof.
  induction ls as [|l ls IH]; simpl.
  - intros []%elem_of_nil.
  - intros [Hin|Hin]%elem_of_app.
    + exists l. split; [done | by left].
    + destruct (IH Hin) as (l' & ? & ?). exists l'. split; [done | by right].
Qed.

Lemma contributions_points round_data date l (b : Collection) :
  fold_left (contribute round_data date) l b
  = append_points
      (omap (λ i, match classify round_data i with
                  | Numeric n => Some (pool_name i, (date, n))
                  | _ => None
                  end) l) b.
Proof.
  revert b. induction l as [|i l IH]; intros b; [done|].
  cbn [fold_left]. rewrite IH. unfold contribute. simpl.
  by destruct (classify round_data i).
Qed.

Lemma filter_all {A} (P : A → Prop) `{∀ a, Decision (P a)} (l : list A) :
  length (filter P l) = length l → Forall P l.
Proof.
  induction l as [|a l IH]; [constructor|].
  rewrite filter_cons. destruct (decide (P a)); simpl.
  - intros [= Hl]. constructor; auto.
  - intros Hl. pose proof (length_filter P l). lia.
Qed.

Lemma zero_count_all_skipped round_data i :
  zero_count round_data = 17%nat → i ∈ seq 1 17 →
  classify round_data i = Skipped.
Proof.
  unfold zero_count. intros Hz Hi.
  apply (filter_all _ (seq 1 17)) in Hz. rewrite Forall_forall in Hz.
  specialize (Hz i Hi). unfold classify.
  destruct (round_data !! ("dd" +:+ pretty i)) as [v|]; [|done].
  simpl in Hz. by subst v.
Qed.

Lemma pool_round_points round_data date (b : Collection) :
  round_data !! "drawDate" = Some date →
  (∀ i, i ∈ seq 1 17 → classify round_data i ≠ Malformed) →
  Try.except (pool_round round_data) b
  = (append_points (pool_points round_data) b, []).
Proof.
  intros Hdate Hfine. unfold pool_points. rewrite Hdate.
  rewrite <- contributions_points.
  unfold Try.except, pool_round, Try.bind, getitem. rewrite Hdate.
  unfold Try.ret at 1.
  destruct (Nat.eqb_spec (zero_count round_data) 17) as [Hz|Hz].
  - unfold Try.ret. f_equal.
    assert (∀ l, (∀ i, i ∈ l → classify round_data i = Skipped) →
                 fold_left (contribute round_data date) l b = b) as Hskip.
    { clear. intros l. revert b. induction l as [|i l IH]; intros b Hl; [done|].
      cbn [fold_left]. unfold contribute at 2.
      rewrite (Hl i ltac:(left)). apply IH. intros j Hj. apply Hl. by right. }
    symmetry. apply Hskip. intros i Hi. by apply zero_count_all_skipped.
  - rewrite pool_fields_fine; [done|].
    intros i Hi. split; [|auto]. apply elem_of_seq in Hi. lia.
Qed.

Lemma pool_rounds_points rounds (b : Collection) :
  Forall (λ r, ∃ date, r !! "drawDate" = Some date
                       ∧ ∀ i, i ∈ seq 1 17 → classify r i ≠ Malformed)
         rounds →
  Try.for_rounds pool_round rounds b
  = (append_points (concat (pool_points <$> rounds)) b, []).
Proof.
  intros Hall. revert b.
  induction Hall as [|r rounds (date & Hdate & Hfine) _ IH]; intros b; [done|].
  rewrite for_rounds_cons, (pool_round_points _ _ _ Hdate Hfine). simpl.
  rewrite IH. by rewrite append_points_app.
Qed.

(** X11. A round with a date in which every pool field is missing, empty or
    zero leaves the pool data as it was and logs nothing, whether it is
    dropped by the count of zeros or goes through the loop over the
    fields. *)
Theorem pool_round_all_skipped
    (round_data : Round) (date : string) (b : Collection) :
  round_data !! "drawDate" = Some date →
  (∀ i, i ∈ seq 1 17 → classify round_data i = Skipped) →
  Try.except (pool_round round_data) b = (b, []).
Proof.
  intros Hdate Hskip.
  rewrite (pool_round_points _ date) by (done || (intros i Hi; by rewrite Hskip)).
  unfold pool_points. rewrite Hdate.
  assert (omap (λ i, match classify round_data i with
                     | Numeric n => Some (pool_name i, (date, n))
                     | _ => None
                     end) (seq 1 17) = []) as ->; [|done].
  induction (seq 1 17) as [|i l IH]; [done|].
  simpl. rewrite (Hskip i ltac:(left)). apply IH.
  intros j Hj. apply Hskip. by right.
Qed.

Lemma pool_round_all_skipped_witness :
  Try.except
    (pool_round {[ "drawDate" := "2024-01-01"; "dd1" := "0"; "dd2" := "";
                   "dd3" := "0," ]}) []
  = ([], []).
Proof.
  apply (pool_round_all_skipped _ "2024-01-01"); [reflexivity|].
  apply Forall_forall. simpl. repeat constructor.
Defined.

(** X12. On rounds of ASCII text that all have a date that parses and no
    malformed pool field, the pool transform returns for every positive
    batch size, with nothing logged; the series of a range holds exactly the
    dates and counts of the rounds whose field for that range is a number,
    each date with its count, in calendar order, and a range no round has a
    number for has no series. *)
Theorem pool_trends_group_by_range
    (self : ImmigrationDataProcessor) (rounds : list Round) :
  0 < batch_size self →
  Forall ascii_round rounds →
  Forall (λ r, ∃ date, r !! "drawDate" = Some date
                       ∧ is_Some (Py.strptime date)
                       ∧ ∀ i, i ∈ seq 1 17 → classify r i ≠ Malformed)
         rounds →
  ∃ out, _process_pool_trends self rounds = Ok (out, [])
    ∧ ∀ key,
        match Dict.get key out with
        | Some s =>
            points_with key (concat (pool_points <$> rounds)) ≠ []
            ∧ zip (Series.x s) (Series.y s)
              ≡ₚ points_with key (concat (pool_points <$> rounds))
            ∧ chronological s
            ∧ Series.type s = "scatter"
            ∧ Series.mode s = "lines+markers"
            ∧ Series.name s = Py.title key
        | None => points_with key (concat (pool_points <$> rounds)) = []
        end.
Proof.
  intros Hpos _ Hall. unfold _process_pool_trends.
  rewrite (process_in_batches_one_pass pool_round pool_round_mt _ rounds Hpos).
  rewrite pool_rounds_points.
  2:{ eapply Forall_impl; [exact Hall|]. intros r (date & ? & _ & ?). eauto. }
  apply finish_append_points.
  intros k d n Hin.
  apply elem_concat in Hin as (pts & Hin & Hpts).
  apply list_elem_of_fmap in Hpts as (r & -> & Hr).
  rewrite Forall_forall in Hall.
  destruct (Hall r Hr) as (date & Hdate & Hparse & _).
  unfold pool_points in Hin. rewrite Hdate in Hin.
  apply list_elem_of_omap in Hin as (i & _ & Hi).
  destruct (classify r i); try done. by injection Hi as _ <- _.
Qed.

Lemma pool_trends_group_by_range_witness :
  ∃ out, _process_pool_trends (mk_processor 8) [sparse_pool_round]
         = Ok (out, [])
    ∧ ∀ key,
        match Dict.get key out with
        | Some s =>
            points_with key (concat (pool_points <$> [sparse_pool_round])) ≠ []
            ∧ zip (Series.x s) (Series.y s)
              ≡ₚ points_with key (concat (pool_points <$> [sparse_pool_round]))
            ∧ chronological s
            ∧ Series.type s = "scatter"
            ∧ Series.mode s = "lines+markers"
            ∧ Series.name s = Py.title key
        | None =>
            points_with key (concat (pool_points <$> [sparse_pool_round])) = []
        end.
Proof.
  apply pool_trends_group_by_range; [reflexivity | |].
  - apply (bool_decide_unpack _). vm_compute. reflexivity.
  - constructor; [|constructor].
    exists "2024-01-01". split; [reflexivity|]. split; [vm_compute; eauto|].
    apply Forall_forall. simpl. repeat constructor; by vm_compute.
Defined.

(** ** The keys of the pool transform *)

Lemma for_invariant {St A} (body : A → Try.t St unit) (P : St → Prop) l s :
  (∀ a s, a ∈ l → P s → P (body a s).1) → P s → P (Try.for_ l body s).1.
Proof.
  revert s. induction l as [|a l IH]; intros s Hbody Hs; [done|].
  simpl. unfold Try.bind.
  pose proof (Hbody a s ltac:(left) Hs) as Hs'.
  destruct (body a s) as [s' [[]|e]]; simpl in *; [|done].
  apply IH; [|done]. intros a' s'' Ha'. apply Hbody. by right.
Qed.

Lemma ensure_series_elem k nm (b : Collection) k' :
  k' ∈ Dict.keys (ensure_series k nm b) ↔ k' = k ∨ k' ∈ Dict.keys b.
Proof.
  unfold ensure_series. destruct (Dict.contains k b) eqn:E.
  - apply contains_true in E. naive_solver.
  - apply elem_keys_set.
Qed.

Lemma pool_field_keys round_data date i (b : Collection) k :
  (1 ≤ i ≤ 17)%nat →
  k ∈ Dict.keys (pool_field round_data date i b).1 →
  k = pool_name i ∨ k ∈ Dict.keys b.
Proof.
  intros Hi. rewrite pool_field_cases by done.
  destruct (classify round_data i); simpl; [by right| |].
  - unfold append_point. rewrite !keys_alter. apply ensure_series_elem.
  - rewrite keys_alter. apply ensure_series_elem.
Qed.

Lemma pool_round_keys round_data (b : Collection) :
  (∀ k, k ∈ Dict.keys b → k ∈ pool_name <$> seq 1 17) →
  ∀ k, k ∈ Dict.keys (Try.except (pool_round round_data) b).1 →
       k ∈ pool_name <$> seq 1 17.
Proof.
  intros Hb.
  assert (∀ k, k ∈ Dict.keys (pool_round round_data b).1 →
               k ∈ pool_name <$> seq 1 17) as H.
  { unfold pool_round, Try.bind, getitem.
    destruct (round_data !! "drawDate") as [date|]; [|done].
    unfold Try.ret at 1. destruct (Nat.eqb _ 17); [done|].
    apply (for_invariant (pool_field round_data date)
             (λ b, ∀ k, k ∈ Dict.keys b → k ∈ pool_name <$> seq 1 17));
      [|done].
    intros i s Hi Hs k Hk.
    apply pool_field_keys in Hk; [|apply elem_of_seq in Hi; lia].
    destruct Hk as [->|Hk]; [|by apply Hs].
    apply list_elem_of_fmap. eauto. }
  unfold Try.except. destruct (pool_round round_data b) as [b' [[]|e]]; done.
Qed.

Lemma process_in_batches_keys body (K : list string) batch_size rounds acc w :
  (∀ r (b : Collection), (∀ k, k ∈ Dict.keys b → k ∈ K) →
     ∀ k, k ∈ Dict.keys (Try.except (body r) b).1 → k ∈ K) →
  process_in_batches body batch_size rounds = Ok (acc, w) →
  ∀ k, k ∈ Dict.keys acc → k ∈ K.
Proof.
  intros Hbody. unfold process_in_batches.
  destruct (Py.range _ _ _) as [starts|]; [|done].
  intros [= H]. revert H.
  assert (∀ k, k ∈ Dict.keys (([], []) : Collection * list warning).1 → k ∈ K)
    as Hinit by (intros k []%elem_of_nil).
  revert Hinit. generalize (([], []) : Collection * list warning).
  induction starts as [|i starts IH]; intros st Hst; simpl.
  - by intros ->.
  - apply IH. unfold batch_step. destruct (Py.slice _ _ _) as [|r batch]; [done|].
    pose proof (for_rounds_invariant body
                  (λ b : Collection, ∀ k, k ∈ Dict.keys b → k ∈ K)
                  (r :: batch) [] Hbody) as Hb.
    destruct (Try.for_rounds body (r :: batch) []) as [b wb]; simpl in *.
    intros k [Hk|Hk]%merge_batch_keys; [by apply Hst|].
    apply Hb; [|done]. intros k' []%elem_of_nil.
Qed.

(** X13. Whatever the rounds hold, every key of the pool-trend collection is
    the key of one of the 17 ranges, so the collection has at most 17
    series. *)
Theorem pool_keys_are_ranges
    (self : ImmigrationDataProcessor) (rounds : list Round)
    (out : Collection) (w : list warning) :
  _process_pool_trends self rounds = Ok (out, w) →
  (∀ key, key ∈ Dict.keys out →
          ∃ i, (1 ≤ i ≤ 17)%nat ∧ key = pool_name i)
  ∧ (length out ≤ 17)%nat.
Proof.
  unfold _process_pool_trends. intros H.
  apply finish_keys in H as (acc & w0 & Hacc & Hkeys).
  pose proof (process_in_batches_NoDup _ _ _ _ _ Hacc) as Hnd.
  pose proof (process_in_batches_keys _ _ _ _ _ _ pool_round_keys Hacc) as Hin.
  assert (∀ key, key ∈ Dict.keys out → key ∈ pool_name <$> seq 1 17) as Hout.
  { intros key. rewrite Hkeys, sorted_perm. apply Hin. }
  split.
  - intros key (i & -> & Hi%elem_of_seq)%Hout%list_elem_of_fmap.
    exists i. split; [lia | done].
  - assert (NoDup (Dict.keys out)) as Hnd'
      by (by rewrite Hkeys, sorted_perm).
    pose proof (submseteq_length _ _ (NoDup_submseteq _ _ Hnd' Hout)) as Hlen.
    unfold Dict.keys in Hlen. by rewrite !length_fmap, length_seq in Hlen.
Qed.

Lemma pool_keys_are_ranges_witness :
  (∀ key, key ∈ ["CRS Range: 491-500"; "CRS Range: 601-1200"] →
          ∃ i, (1 ≤ i ≤ 17)%nat ∧ key = pool_name i)
  ∧ (2 ≤ 17)%nat.
Proof.
  apply (pool_keys_are_ranges (mk_processor 8) [sparse_pool_round]
           [("CRS Range: 491-500",
             Series.mk ["2024-01-01"] [7] "scatter" "lines+markers"
                       "Crs Range: 491-500");
            ("CRS Range: 601-1200",
             Series.mk ["2024-01-01"] [1200] "scatter" "lines+markers"
                       "Crs Range: 601-1200")]
           []).
  vm_compute. reflexivity.
Defined.

(** ** More on the draw-size transform *)

Lemma draw_size_round_get round_data (st : MonthState) month :
  Dict.get month (Try.except (draw_size_round round_data) st).1.1
  = match size_entry round_data with
    | Some (m, n) =>
        if String.eqb m month
        then Some (default 0 (Dict.get month st.1) + n)
        else Dict.get month st.1
    | None => Dict.get month st.1
    end
  ∧ Dict.get month (Try.except (draw_size_round round_data) st).1.2
    = match candidate_entry round_data with
      | Some (m, n) =>
          if String.eqb m month
          then Some (default [] (Dict.get month st.2) ++ [n])
          else Dict.get month st.2
      | None => Dict.get month st.2
      end.
Proof.
  destruct st as [inv cand].
  unfold candidate_entry, size_entry, Try.except, draw_size_round, Try.bind,
    getitem, Try.modify, Try.lift, Try.ret, Try.raise.
  destruct (round_data !! "drawDate") as [draw_date|]; [|done].
  fold (year_month draw_date).
  destruct (round_data !! "drawSize") as [text|]; [|done].
  destruct (_parse_numeric_value text) as [draw_size|]; [|done].
  cbn [fst snd].
  assert (Dict.get month
            (Dict.set (year_month draw_date)
               (default 0 (Dict.get (year_month draw_date) inv) + draw_size)
               inv)
          = if String.eqb (year_month draw_date) month
            then Some (default 0 (Dict.get month inv) + draw_size)
            else Dict.get month inv) as Hinv.
  { destruct (String.eqb_spec (year_month draw_date) month) as [<-|Hne].
    - apply get_set_eq.
    - by apply get_set_ne. }
  destruct (round_data !! "dd18") as [total_text|]; [|done].
  destruct (_parse_numeric_value total_text) as [total|]; [|done].
  cbn [fst snd]. split; [done|].
  destruct (String.eqb_spec (year_month draw_date) month) as [<-|Hne].
  - rewrite get_alter_eq.
    destruct (Dict.contains (year_month draw_date) cand) eqn:E.
    + unfold Dict.contains in E. by destruct (Dict.get _ cand).
    + rewrite get_set_eq. apply contains_false, get_None in E.
      by rewrite E.
  - rewrite get_alter_ne by done.
    destruct (Dict.contains (year_month draw_date) cand); [done|].
    by apply get_set_ne.
Qed.

(** X14. The loop of the draw-size transform, month by month, on rounds of
    ASCII text: the invitations of a month are the sum of the draw sizes of
    the rounds of that month that have a numeric draw size, and its
    candidates are the candidate counts, in order, of those of these rounds
    that have a numeric count as well; a round whose count is missing or
    malformed still adds its draw size to the invitations. *)
Theorem draw_size_loop_by_month (rounds : list Round) (month : string) :
  Forall ascii_round rounds →
  Dict.get month (Try.for_rounds draw_size_round rounds ([], [])).1.1
  = match points_with month (omap size_entry rounds) with
    | [] => None
    | sizes => Some (foldr Z.add 0 sizes)
    end
  ∧ Dict.get month (Try.for_rounds draw_size_round rounds ([], [])).1.2
    = match points_with month (omap candidate_entry rounds) with
      | [] => None
      | counts => Some counts
      end.
Proof.
  intros _.
  assert (∀ st : MonthState,
    Dict.get month (Try.for_rounds draw_size_round rounds st).1.1
    = match points_with month (omap size_entry rounds) with
      | [] => Dict.get month st.1
      | sizes => Some (default 0 (Dict.get month st.1) + foldr Z.add 0 sizes)
      end
    ∧ Dict.get month (Try.for_rounds draw_size_round rounds st).1.2
      = match points_with month (omap candidate_entry rounds) with
        | [] => Dict.get month st.2
        | counts => Some (default [] (Dict.get month st.2) ++ counts)
        end) as H.
  { induction rounds as [|r rounds IH]; intros st; [done|].
    rewrite for_rounds_cons. cbn [fst snd].
    destruct (IH (Try.except (draw_size_round r) st).1) as [IH1 IH2].
    destruct (draw_size_round_get r st month) as [H1 H2].
    rewrite IH1, IH2, H1, H2. clear IH IH1 IH2 H1 H2.
    cbn [omap list_omap].
    split.
    - destruct (size_entry r) as [[m n]|]; [|done].
      change (list_omap _ _ size_entry rounds) with (omap size_entry rounds).
      rewrite points_with_cons.
      destruct (String.eqb m month); [|done].
      destruct (points_with month (omap size_entry rounds)); simpl;
        f_equal; lia.
    - destruct (candidate_entry r) as [[m n]|]; [|done].
      change (list_omap _ _ candidate_entry rounds)
        with (omap candidate_entry rounds).
      rewrite points_with_cons.
      destruct (String.eqb m month); [|done].
      destruct (points_with month (omap candidate_entry rounds)); simpl;
        [done | by rewrite <- app_assoc]. }
  destruct (H ([], [])) as [H1 H2]. rewrite H1, H2. split.
  - destruct (points_with month (omap size_entry rounds)); [done|].
    simpl. f_equal.
  - by destruct (points_with month (omap candidate_entry rounds)).
Qed.

Lemma draw_size_loop_by_month_witness :
  Dict.get "2024-01"
    (Try.for_rounds draw_size_round monthly_rounds ([], [])).1.1
  = Some 1500
  ∧ Dict.get "2024-01"
      (Try.for_rounds draw_size_round monthly_rounds ([], [])).1.2
    = Some [200; 300].
Proof.
  apply (draw_size_loop_by_month monthly_rounds "2024-01").
  apply (bool_decide_unpack _). vm_compute. reflexivity.
Defined.

Lemma rmapM_Raise_intro {A B} (f : A → result B) (l : list A) a e :
  a ∈ l → f a = Raise e → ∃ e', rmapM f l = Raise e'.
Proof.
  induction l as [|a0 l IH]; [by intros []%elem_of_nil|].
  intros Hin Ha. simpl. destruct (f a0) as [b|e0] eqn:Hf0; simpl; [|eauto].
  apply elem_of_cons in Hin as [->|Hin]; [congruence|].
  destruct (IH Hin Ha) as [e' ->]. simpl. eauto.
Qed.

Lemma mean_Raise candidates e : mean candidates = Raise e → e = OverflowError.
Proof.
  destruct candidates as [|c cs]; [done|]. simpl. unfold true_div.
  destruct (_ <=? _); [by intros [= <-] | done].
Qed.

(** Every month that has candidates has invitations. *)
Lemma draw_size_round_months round_data (st : MonthState) :
  (∀ k, k ∈ Dict.keys st.2 → k ∈ Dict.keys st.1) →
  ∀ k, k ∈ Dict.keys (Try.except (draw_size_round round_data) st).1.2 →
       k ∈ Dict.keys (Try.except (draw_size_round round_data) st).1.1.
Proof.
  destruct st as [inv cand]. intros Hst.
  unfold Try.except, draw_size_round, Try.bind, getitem, Try.modify, Try.lift,
    Try.ret, Try.raise.
  destruct (round_data !! "drawDate") as [draw_date|]; [|done].
  destruct (round_data !! "drawSize") as [text|]; [|done].
  destruct (_parse_numeric_value text) as [draw_size|]; [|done].
  cbn [fst snd].
  assert (∀ k, k ∈ Dict.keys cand →
               k ∈ Dict.keys (Dict.set (Py.join "-" (take 2 (Py.split "-" draw_date)))
                                (default 0 (Dict.get (Py.join "-" (take 2 (Py.split "-" draw_date))) inv)
                                 + draw_size) inv)) as Hold.
  { intros k Hk. apply elem_keys_set. right. by apply Hst. }
  destruct (round_data !! "dd18") as [total_text|]; [|done].
  destruct (_parse_numeric_value total_text) as [total|]; [|done].
  cbn [fst snd]. intros k. rewrite keys_alter.
  destruct (Dict.contains _ cand); [apply Hold|].
  intros [->|Hk]%elem_keys_set; [|by apply Hold].
  apply elem_keys_set. by left.
Qed.

Lemma dict_item_Ok {V} (d : Dict.t V) k :
  k ∈ Dict.keys d → ∃ v, dict_item d k = Ok v.
Proof.
  intros Hk. unfold dict_item. destruct (Dict.get k d) as [v|] eqn:E; [eauto|].
  by apply get_None in E.
Qed.

(** The draw-size transform either returns, and then every month has a
    mean, or raises [OverflowError] for a month whose mean is too large. *)
Lemma draw_size_cases (rounds : list Round) :
  (∃ r, _process_draw_size_trends rounds = Ok r
        ∧ ∀ month candidates,
            Dict.get month (Try.for_rounds draw_size_round rounds ([], [])).1.2
            = Some candidates →
            ∃ value, mean candidates = Ok value)
  ∨ (_process_draw_size_trends rounds = Raise OverflowError
     ∧ ∃ month candidates,
         Dict.get month (Try.for_rounds draw_size_round rounds ([], [])).1.2
         = Some candidates
         ∧ mean candidates = Raise OverflowError).
Proof.
  pose proof (for_rounds_invariant draw_size_round
                (λ st : MonthState, NoDup (Dict.keys st.2)) rounds ([], [])
                draw_size_round_NoDup (NoDup_nil_2)) as Hnd.
  pose proof (for_rounds_invariant draw_size_round
                (λ st : MonthState,
                   ∀ k, k ∈ Dict.keys st.2 → k ∈ Dict.keys st.1)
                rounds ([], []) draw_size_round_months
                ltac:(by intros k []%elem_of_nil)) as Hsub.
  unfold _process_draw_size_trends.
  destruct (Try.for_rounds draw_size_round rounds ([], []))
    as [[inv cand] w]. simpl in Hnd, Hsub. cbn [fst snd].
  set (f := λ '(month, candidates),
              rbind (mean candidates) (λ value : Q, Ok (month, value))).
  assert (Hf : ∀ m cs e', f (m, cs) = Raise e' ↔ mean cs = Raise e').
  { intros m cs e'. unfold f. destruct (mean cs); simpl; split; congruence. }
  destruct (rmapM f cand) as [means|e0] eqn:Hmeans; simpl.
  - left.
    set (valid := filter _ means).
    assert (∀ m, m ∈ Dict.keys valid → m ∈ Dict.keys inv) as Hvalid.
    { intros m Hm. apply Hsub. rewrite <- (means_keys _ _ Hmeans).
      revert Hm. apply filter_keys_elem. }
    destruct (rmapM_all_Ok
                (dict_item
                   (omap (λ month, pair month <$> Dict.get month inv)
                         (Dict.keys valid)))
                (Py.sorted String.ltb id (Dict.keys valid))) as [ys ->].
    { intros m Hm. rewrite sorted_perm in Hm. apply dict_item_Ok.
      apply elem_keys. pose proof (Hvalid m Hm) as Hinv.
      destruct (Dict.get m inv) as [n|] eqn:E;
        [|by apply get_None in E].
      exists n. apply list_elem_of_omap. exists m. by rewrite E. }
    simpl.
    destruct (rmapM_all_Ok (dict_item valid)
                (Py.sorted String.ltb id (Dict.keys valid))) as [vs ->].
    { intros m Hm. rewrite sorted_perm in Hm. by apply dict_item_Ok. }
    simpl. eexists. split; [done|].
    intros m cs Hget%get_Some_elem.
    destruct (mean cs) as [value|e'] eqn:Hm; [eauto|]. exfalso.
    destruct (rmapM_Raise_intro f _ _ e' Hget) as [e'' He''];
      [by apply Hf | congruence].
  - right. apply rmapM_Raise in Hmeans as ([m cs] & Hin & Hm%Hf).
    pose proof (mean_Raise _ _ Hm) as ->. split; [done|].
    exists m, cs. split; [by apply elem_get_Some | done].
Qed.

(** X15. The draw-size transform raises exactly when the mean of the
    candidate counts of some month is too large for a float, and what it
    raises is [OverflowError]; no lookup of a month fails. *)
Theorem draw_size_raises_iff (rounds : list Round) (e : exn) :
  _process_draw_size_trends rounds = Raise e
  ↔ e = OverflowError
    ∧ ∃ month candidates,
        Dict.get month (Try.for_rounds draw_size_round rounds ([], [])).1.2
        = Some candidates
        ∧ mean candidates = Raise OverflowError.
Proof.
  destruct (draw_size_cases rounds) as [(r & Hr & Hall)|(Hr & Hex)];
    rewrite Hr.
  - split; [done|]. intros (_ & m & cs & Hget & Hm).
    destruct (Hall m cs Hget) as [value Hv]. congruence.
  - split; [by intros [= <-] | by intros [-> _]].
Qed.
